(** * Verification of arm_navigation_experimental: planning monitor and
      collision proximity space.

    Doubles are modelled as exact integers ([Z]); unsigned ints as [Z] with
    their 32-bit wrap-around written out. *)

From Stdlib Require Import ZArith List String Bool Lia Sorted.
Import ListNotations.
Open Scope Z_scope.

(* ================================================================= *)
(** ** planning_environment::PlanningMonitor (planning_monitor.cpp)   *)
(* ================================================================= *)

Module PlanningMonitor.

(** motion_planning_msgs::ArmNavigationErrorCodes (the values used here). *)
Inductive ErrorCode :=
| SUCCESS
| INVALID_INDEX
| INVALID_TRAJECTORY
| FRAME_TRANSFORM_FAILURE
| OTHER_ERROR (code : Z).

(** trajectory_msgs::JointTrajectoryPoint / JointTrajectory. *)
Record JointTrajectoryPoint := { positions : list Z }.

Record JointTrajectory := {
  frame_id : string;
  joint_names : list string;
  points : list JointTrajectoryPoint
}.

(** [unsigned int] values. *)
Definition uint32 (z : Z) : Z := z mod 2 ^ 32.

(** [end = trajectory.points.size() - 1]: a [size_t] subtraction (wraps
    modulo 2^64) stored into an [unsigned int]. *)
Definition size_minus_one (t : JointTrajectory) : Z :=
  uint32 ((Z.of_nat (List.length (points t)) - 1) mod 2 ^ 64).

(** The clamping of [end] done at the top of both [closestStateOnTrajectory]
    and [isTrajectoryValid]:
    [if (end >= trajectory.points.size()) end = trajectory.points.size() - 1;] *)
Definition clamp_end (t : JointTrajectory) (end_ : Z) : Z :=
  if Z.of_nat (List.length (points t)) <=? end_ then size_minus_one t else end_.

(** [std::map<std::string,double>::find] on the current joint values. *)
Fixpoint map_find (m : list (string * Z)) (k : string) : option Z :=
  match m with
  | [] => None
  | (k', v) :: m' => if String.eqb k k' then Some v else map_find m' k
  end.

(** [fabs] *)
Definition fabs (x : Z) : Z := Z.abs x.

(** The inner loop over [j]:
    [d += diff * diff] with [diff = fabs(points[i].positions[j] - current)]. *)
Fixpoint point_distance_loop (vals : list (string * Z)) (names : list string)
    (pos : list Z) (d : Z) : Z :=
  match names, pos with
  | [], _ => d
  | n :: names', p :: pos' =>
      let current_joint_position :=
        match map_find vals n with Some v => v | None => 0 end in
      let diff := fabs (p - current_joint_position) in
      point_distance_loop vals names' pos' (d + diff * diff)
  | _ :: _, [] => d (* positions[j] out of range: excluded by hypothesis *)
  end.

Definition point_distance (vals : list (string * Z)) (t : JointTrajectory)
    (i : Z) : Z :=
  point_distance_loop vals (joint_names t)
    (positions (nth (Z.to_nat i) (points t) {| positions := [] |})) 0.

(** The outer loop [for (i = start; i <= end; ++i)], keeping
    [pos] and [dist]; [fuel] is the number of remaining iterations. *)
Fixpoint closest_loop (vals : list (string * Z)) (t : JointTrajectory)
    (i : Z) (fuel : nat) (pos dist : Z) : Z :=
  match fuel with
  | O => pos
  | S fuel' =>
      let d := point_distance vals t i in
      if (pos <? 0) || (d <? dist)
      then closest_loop vals t (i + 1) fuel' i d
      else closest_loop vals t (i + 1) fuel' pos dist
  end.

(** [PlanningMonitor::closestStateOnTrajectoryAux]; [vals] is
    [getCurrentJointStateValues()]. Returns [(result, error_code)]. *)
Definition closestStateOnTrajectoryAux (vals : list (string * Z))
    (t : JointTrajectory) (start end_ : Z) (error_code : ErrorCode)
    : Z * ErrorCode :=
  if existsb (fun n => match map_find vals n with None => true | Some _ => false end)
       (joint_names t)
  then (-1, INVALID_TRAJECTORY)
  else (closest_loop vals t start (Z.to_nat (end_ - start + 1)) (-1) 0, error_code).

Section WithFrames.

(** Collaborators outside the claims: the robot state, the world frame and
    the frame transformation of a trajectory. *)
Variable RobotState : Type.
Variable getWorldFrameId : string.
Variable transformTrajectoryToFrame :
  JointTrajectory -> RobotState -> string -> ErrorCode -> option JointTrajectory * ErrorCode.
(** [isTrajectoryValidAux] (the per-point validity checks). *)
Variable isTrajectoryValidAux :
  JointTrajectory -> RobotState -> Z -> Z -> ErrorCode -> bool * ErrorCode.

(** [PlanningMonitor::closestStateOnTrajectory(trajectory, robot_state, start, end, error_code)] *)
Definition closestStateOnTrajectory (vals : list (string * Z))
    (t : JointTrajectory) (robot_state : RobotState) (start end0 : Z)
    (error_code : ErrorCode) : Z * ErrorCode :=
  let end_ := clamp_end t end0 in
  if end_ <? start then (-1, INVALID_INDEX)
  else if negb (String.eqb (frame_id t) getWorldFrameId) then
    match transformTrajectoryToFrame t robot_state getWorldFrameId error_code with
    | (Some pathT, ec) => closestStateOnTrajectoryAux vals pathT start end_ ec
    | (None, _) => (-1, FRAME_TRANSFORM_FAILURE)
    end
  else closestStateOnTrajectoryAux vals t start end_ error_code.

(** [PlanningMonitor::isTrajectoryValid(trajectory, robot_state, start, end, ...)] *)
Definition isTrajectoryValid (t : JointTrajectory) (robot_state : RobotState)
    (start end0 : Z) (error_code : ErrorCode) : bool * ErrorCode :=
  let end_ := clamp_end t end0 in
  if end_ <? start then (true, INVALID_INDEX)
  else if negb (String.eqb (frame_id t) getWorldFrameId) then
    match transformTrajectoryToFrame t robot_state getWorldFrameId error_code with
    | (Some pathT, ec) => isTrajectoryValidAux pathT robot_state start end_ ec
    | (None, _) => (false, FRAME_TRANSFORM_FAILURE)
    end
  else isTrajectoryValidAux t robot_state start end_ error_code.

End WithFrames.

End PlanningMonitor.

(* ----------------------------------------------------------------- *)
(** *** Claim-level reading of the cost minimised by
        [closestStateOnTrajectoryAux]: the sum over the trajectory's
        joints of the squared difference between the point's position
        and the current joint value. *)
(* ----------------------------------------------------------------- *)

Module ClosestStateSpec.
Import PlanningMonitor.

Definition current_value (vals : list (string * Z)) (n : string) : Z :=
  match map_find vals n with Some v => v | None => 0 end.

Definition claim_sq_distance (vals : list (string * Z)) (t : JointTrajectory)
    (i : Z) : Z :=
  let pt := positions (nth (Z.to_nat i) (points t) {| positions := [] |}) in
  fold_right Z.add 0
    (map (fun j => (nth j pt 0 - current_value vals (nth j (joint_names t) EmptyString)) ^ 2)
       (seq 0 (List.length (joint_names t)))).

End ClosestStateSpec.

(* ================================================================= *)
(** ** Geometry shared by the collision proximity space                *)
(* ================================================================= *)

Module Geometry.

(** Points and vectors ([btVector3]) with exact integer coordinates. *)
Definition point := (Z * Z * Z)%type.
Definition vec := point.

Definition zero_vec : vec := (0, 0, 0).

Definition vadd (a b : vec) : vec :=
  let '(ax, ay, az) := a in let '(bx, by_, bz) := b in (ax + bx, ay + by_, az + bz).

Definition vsub (a b : vec) : vec :=
  let '(ax, ay, az) := a in let '(bx, by_, bz) := b in (ax - bx, ay - by_, az - bz).

Definition vscale (k : Z) (a : vec) : vec :=
  let '(ax, ay, az) := a in (k * ax, k * ay, k * az).

(** Squared Euclidean distance. *)
Definition dist2 (a b : point) : Z :=
  let '(x, y, z) := vsub a b in x * x + y * y + z * z.

Definition point_eqb (a b : point) : bool :=
  let '(ax, ay, az) := a in let '(bx, by_, bz) := b in
  (ax =? bx) && (ay =? by_) && (az =? bz).

(** A collision sphere of a body decomposition. *)
Record Sphere := { center : point; radius : Z }.

(** [BodyDecomposition]: the spheres approximating one link or object;
    [BodyDecompositionVector]: the parts of a composite object. *)
Definition BodyDecomposition := list Sphere.
Definition BodyDecompositionVector := list BodyDecomposition.

(** Moving a local-frame sphere to the world by a body pose (translation). *)
Definition place_sphere (pose : vec) (s : Sphere) : Sphere :=
  {| center := vadd pose (center s); radius := radius s |}.

End Geometry.

(* ================================================================= *)
(** ** distance_field::PropagationDistanceField                        *)
(* ================================================================= *)

(** Modelled from the spec: the propagation distance field held in
    [distance_field_] (build by wave propagation from occupied voxels
    over the 26-neighbourhood, stopping at [max_distance]; [lookup]
    returning distance and gradient, with the [max_distance] sentinel and a
    zero gradient outside the grid) is not among the repository sources;
    it follows section 4.1 of the specification. *)
Module DistanceField.
Import Geometry.

(** The field configuration ([size_x_], [origin_x_], [resolution_],
    [tolerance_], [max_environment_distance_], ...). *)
Record Config := {
  size_x : Z; size_y : Z; size_z : Z;
  origin_x : Z; origin_y : Z; origin_z : Z;
  resolution : Z; tolerance : Z;
  max_distance : Z
}.

(** Voxel indices. *)
Definition cell := (Z * Z * Z)%type.

Definition isCellValid (cfg : Config) (c : cell) : bool :=
  let '(cx, cy, cz) := c in
  (0 <=? cx) && (cx <? size_x cfg / resolution cfg) &&
  (0 <=? cy) && (cy <? size_y cfg / resolution cfg) &&
  (0 <=? cz) && (cz <? size_z cfg / resolution cfg).

Definition worldToGrid (cfg : Config) (p : point) : cell :=
  let '(x, y, z) := p in
  ((x - origin_x cfg) / resolution cfg,
   (y - origin_y cfg) / resolution cfg,
   (z - origin_z cfg) / resolution cfg).

(** World position of a voxel's center. *)
Definition gridToWorld (cfg : Config) (c : cell) : point :=
  let '(cx, cy, cz) := c in
  let h := resolution cfg / 2 in
  (origin_x cfg + resolution cfg * cx + h,
   origin_y cfg + resolution cfg * cy + h,
   origin_z cfg + resolution cfg * cz + h).

(** The 26-neighbourhood of a voxel. *)
Definition offsets : list Z := [-1; 0; 1].

Definition neighbours (c : cell) : list cell :=
  let '(cx, cy, cz) := c in
  flat_map (fun dx => flat_map (fun dy => flat_map (fun dz =>
    if (dx =? 0) && (dy =? 0) && (dz =? 0) then []
    else [(cx + dx, cy + dy, cz + dz)]) offsets) offsets) offsets.

(** Squared world distance between two voxel centers. *)
Definition world_dist2 (cfg : Config) (c o : cell) : Z :=
  resolution cfg * resolution cfg * dist2 c o.

Definition within_range (cfg : Config) (c o : cell) : bool :=
  world_dist2 cfg c o <=? max_distance cfg * max_distance cfg.

(** Each voxel stores the closest occupied voxel found so far. *)
Definition Field := cell -> option cell.

(** Relaxation of voxel [c] by the obstacle a neighbour knows. *)
Definition improve (cfg : Config) (c : cell) (cur cand : option cell) : option cell :=
  match cand with
  | None => cur
  | Some o =>
      if within_range cfg c o then
        match cur with
        | None => Some o
        | Some a => if dist2 c o <? dist2 c a then Some o else cur
        end
      else cur
  end.

Definition init_field (cfg : Config) (obstacles : list cell) : Field :=
  fun c => if isCellValid cfg c && existsb (point_eqb c) obstacles then Some c else None.

(** One wave of the propagation. *)
Definition propagate_step (cfg : Config) (f : Field) : Field :=
  fun c =>
    if isCellValid cfg c
    then fold_left (fun acc n => improve cfg c acc (f n)) (neighbours c) (f c)
    else None.

Fixpoint propagate (cfg : Config) (f : Field) (rounds : nat) : Field :=
  match rounds with
  | O => f
  | S k => propagate cfg (propagate_step cfg f) k
  end.

(** The wave stops once it has travelled [max_distance]. *)
Definition propagation_rounds (cfg : Config) : nat :=
  S (Z.to_nat (max_distance cfg / resolution cfg)).

Record PropagationDistanceField := {
  df_config : Config;
  df_obstacles : list cell;
  df_closest : Field
}.

(** [build(obstacle voxel set)] *)
Definition build (cfg : Config) (obstacles : list cell) : PropagationDistanceField :=
  {| df_config := cfg; df_obstacles := obstacles;
     df_closest := propagate cfg (init_field cfg obstacles) (propagation_rounds cfg) |}.

(** [lookup(point)]: distance and gradient. *)
Definition lookup (df : PropagationDistanceField) (p : point) : Z * vec :=
  let cfg := df_config df in
  let c := worldToGrid cfg p in
  if isCellValid cfg c then
    match df_closest df c with
    | Some o =>
        let d2 := world_dist2 cfg c o in
        if d2 <=? max_distance cfg * max_distance cfg
        then (Z.sqrt d2, vscale (resolution cfg) (vsub c o))
        else (max_distance cfg, zero_vec)
    | None => (max_distance cfg, zero_vec)
    end
  else (max_distance cfg, zero_vec).

(** Every voxel knows either nothing or a voxel satisfying [P]. *)
Definition field_within (P : cell -> Prop) (f : Field) : Prop :=
  forall c o, f c = Some o -> P o.

End DistanceField.

(* ================================================================= *)
(** ** Collision / proximity evaluator                                 *)
(* ================================================================= *)

(** Modelled from the spec: the bodies of [isStateInCollision],
    [isIntraGroupCollision], [isEnvironmentCollision],
    [getIntraGroupCollisions], [getEnvironmentCollisions],
    [getStateCollisions] and [getStateGradients] (collision_proximity_space.cpp)
    are not among the repository sources; only their declarations in
    collision_proximity_space.h are. They follow section 4.4 of the
    specification, over the current group's world spheres ([ents]), the
    intra-group collision matrix ([m]), the environment exclusions ([ex])
    and the distance field ([df]). *)
Module Evaluator.
Import Geometry DistanceField.

Definition matrix_entry (m : list (list bool)) (i j : nat) : bool :=
  nth j (nth i m []) false.

Definition spheres_overlap (a b : Sphere) : bool :=
  dist2 (center a) (center b) <? (radius a + radius b) * (radius a + radius b).

Definition bodies_collide (e1 e2 : list Sphere) : bool :=
  existsb (fun a => existsb (fun b => spheres_overlap a b) e2) e1.

(** The pairs [(i, j)] with [i < j < n], in loop order. *)
Definition index_pairs (n : nat) : list (nat * nat) :=
  flat_map (fun i => map (fun j => (i, j)) (seq (S i) (n - S i))) (seq 0 n).

(** [collisions[i] = true] *)
Fixpoint set_flag (flags : list bool) (i : nat) : list bool :=
  match flags, i with
  | [], _ => []
  | _ :: fl, O => true :: fl
  | b :: fl, S i' => b :: set_flag fl i'
  end.

Definition intra_pair_hit (ents : list (list Sphere)) (m : list (list bool))
    (p : nat * nat) : bool :=
  let '(i, j) := p in
  matrix_entry m i j && bodies_collide (nth i ents []) (nth j ents []).

(** The pair loop of [getIntraGroupCollisions]; with [stop_at_first] it
    returns at the first colliding pair. *)
Fixpoint intra_scan (ents : list (list Sphere)) (m : list (list bool))
    (stop_at_first : bool) (pairs : list (nat * nat)) (flags : list bool)
    (found : bool) : bool * list bool :=
  match pairs with
  | [] => (found, flags)
  | (i, j) :: rest =>
      if intra_pair_hit ents m (i, j) then
        let flags' := set_flag (set_flag flags i) j in
        if stop_at_first then (true, flags')
        else intra_scan ents m stop_at_first rest flags' true
      else intra_scan ents m stop_at_first rest flags found
  end.

Definition getIntraGroupCollisions (ents : list (list Sphere)) (m : list (list bool))
    (stop_at_first : bool) : bool * list bool :=
  intra_scan ents m stop_at_first (index_pairs (List.length ents))
    (repeat false (List.length ents)) false.

(** A sphere whose center lies closer to an obstacle than its radius. *)
Definition environment_hit (df : PropagationDistanceField) (e : list Sphere) : bool :=
  existsb (fun s => fst (lookup df (center s)) <? radius s) e.

(** The entity loop of [getEnvironmentCollisions]. *)
Fixpoint env_scan (df : PropagationDistanceField) (ex : list bool)
    (stop_at_first : bool) (ents : list (list Sphere)) (i : nat)
    (flags : list bool) (found : bool) : bool * list bool :=
  match ents with
  | [] => (found, flags)
  | e :: rest =>
      if negb (nth i ex false) && environment_hit df e then
        let flags' := set_flag flags i in
        if stop_at_first then (true, flags')
        else env_scan df ex stop_at_first rest (S i) flags' true
      else env_scan df ex stop_at_first rest (S i) flags found
  end.

Definition getEnvironmentCollisions (df : PropagationDistanceField) (ents : list (list Sphere))
    (ex : list bool) (stop_at_first : bool) : bool * list bool :=
  env_scan df ex stop_at_first ents 0 (repeat false (List.length ents)) false.

Definition isIntraGroupCollision (ents : list (list Sphere)) (m : list (list bool)) : bool :=
  fst (getIntraGroupCollisions ents m false).

Definition isEnvironmentCollision (df : PropagationDistanceField) (ents : list (list Sphere))
    (ex : list bool) : bool :=
  fst (getEnvironmentCollisions df ents ex false).

(** Stop-at-first-hit check, intra-group first, then environment. *)
Definition isStateInCollision (df : PropagationDistanceField) (ents : list (list Sphere))
    (m : list (list bool)) (ex : list bool) : bool :=
  if fst (getIntraGroupCollisions ents m true) then true
  else fst (getEnvironmentCollisions df ents ex true).

(** Collision classification of one entity. *)
Inductive CollisionType := NONE | SELF | INTRA_GROUP | ATTACHED | ENVIRONMENT.

Definition getStateCollisions (df : PropagationDistanceField) (ents : list (list Sphere))
    (m : list (list bool)) (ex : list bool) : bool * list CollisionType :=
  let '(intra, intra_flags) := getIntraGroupCollisions ents m false in
  let '(env, env_flags) := getEnvironmentCollisions df ents ex false in
  (intra || env,
   map (fun i => if nth i intra_flags false then INTRA_GROUP
                 else if nth i env_flags false then ENVIRONMENT else NONE)
       (seq 0 (List.length ents))).

(** A (distance, gradient) candidate for one sphere. *)
Definition candidate := (Z * vec)%type.

(** Arg-min keeping the first of equal candidates. *)
Definition argmin (first : candidate) (rest : list candidate) : candidate :=
  fold_left (fun best c => if fst c <? fst best then c else best) rest first.

(** The environment term (unless the entity is excluded) and the
    intra-group terms against the spheres of every enabled partner. *)
Definition sphere_candidates (df : PropagationDistanceField) (ents : list (list Sphere))
    (m : list (list bool)) (ex : list bool) (i : nat) (s : Sphere) : list candidate :=
  (if nth i ex false then [] else [lookup df (center s)]) ++
  flat_map (fun j =>
      if negb (Nat.eqb j i) && matrix_entry m i j then
        map (fun s' => (Z.sqrt (dist2 (center s) (center s')) - radius s - radius s',
                        vsub (center s) (center s')))
            (nth j ents [])
      else [])
    (seq 0 (List.length ents)).

Definition sphere_proximity (df : PropagationDistanceField) (ents : list (list Sphere))
    (m : list (list bool)) (ex : list bool) (subtract_radii : bool) (i : nat)
    (s : Sphere) : candidate :=
  let report := fun c : candidate =>
    (if subtract_radii then fst c - radius s else fst c, snd c) in
  argmin (report (max_distance (df_config df), zero_vec))
         (map report (sphere_candidates df ents m ex i s)).

Definition closest_of (default : Z) (ds : list Z) : Z :=
  match ds with [] => default | d :: ds' => fold_left Z.min ds' d end.

(** [(link_closest_distances, closest_distances, closest_gradients)] *)
Definition getStateGradients (df : PropagationDistanceField) (ents : list (list Sphere))
    (m : list (list bool)) (ex : list bool) (subtract_radii : bool)
    : list Z * list (list Z) * list (list vec) :=
  let per := map (fun i => map (sphere_proximity df ents m ex subtract_radii i) (nth i ents []))
                 (seq 0 (List.length ents)) in
  (map (fun ps => closest_of (max_distance (df_config df)) (map fst ps)) per,
   map (map fst) per,
   map (map snd) per).

(** An entity that is not excluded and has a sphere in the environment. *)
Definition env_entity_hit (df : PropagationDistanceField) (ex : list bool)
    (p : nat * list Sphere) : bool :=
  negb (nth (fst p) ex false) && environment_hit df (snd p).

End Evaluator.

(* ================================================================= *)
(** ** CollisionProximitySpace group query session                     *)
(* ================================================================= *)

(** Modelled from the spec: the bodies of [setupForGroupQueries],
    [getGroupLinkAndAttachedBodyNames], [setCurrentGroupState],
    [revertAfterGroupQueries] and the object update events
    (collision_proximity_space.cpp) are not among the repository sources;
    the fields they act on are declared in collision_proximity_space.h.
    They follow sections 4.3, 5 and 7 of the specification: a recursive
    lock [group_queries_lock_], the Idle/Configured phases and the
    [current_*] caches. *)
Module Session.
Import Geometry DistanceField.

(** Association lists for the [std::map]s keyed by name. *)
Fixpoint find_entry {A : Type} (m : list (string * A)) (k : string) : option A :=
  match m with
  | [] => None
  | (k', v) :: m' => if String.eqb k k' then Some v else find_entry m' k
  end.

Definition remove_entry {A : Type} (m : list (string * A)) (k : string) : list (string * A) :=
  filter (fun e => negb (String.eqb (fst e) k)) m.

Fixpoint index_of (l : list string) (n : string) : option nat :=
  match l with
  | [] => None
  | x :: l' => if String.eqb n x then Some O
               else option_map S (index_of l' n)
  end.

(** The kinematic model, the attachment topology and the stores. *)
Record Topology := {
  group_links : list (string * list string);
  model_links : list string;
  link_attached_objects : list (string * list string);
  body_decomposition_map : list (string * BodyDecomposition);
  attached_object_map : list (string * BodyDecompositionVector);
  static_object_map : list (string * list cell);
  enabled_self_collision_links : list (string * string);
  environment_excludes : list string
}.

(** A kinematic state, as the world pose of each link. *)
Definition KinematicState := list (string * vec).

Record Current := {
  current_group_name : string;
  current_link_names : list string;
  current_attached_body_names : list string;
  current_link_indices : list nat;
  current_attached_body_indices : list nat;
  current_link_body_decompositions : list BodyDecomposition;
  current_attached_body_decompositions : list BodyDecompositionVector;
  current_intra_group_collision_links : list (list bool);
  current_environment_excludes : list bool;
  current_link_poses : list vec;
  current_attached_body_poses : list vec
}.

Definition empty_current : Current :=
  {| current_group_name := EmptyString;
     current_link_names := []; current_attached_body_names := [];
     current_link_indices := []; current_attached_body_indices := [];
     current_link_body_decompositions := [];
     current_attached_body_decompositions := [];
     current_intra_group_collision_links := [];
     current_environment_excludes := [];
     current_link_poses := []; current_attached_body_poses := [] |}.

Inductive Phase := Idle | Configured.

Record Engine := {
  topology : Topology;
  field_config : Config;
  distance_field : PropagationDistanceField;
  lock_owner : option nat;   (* thread holding group_queries_lock_ *)
  lock_count : nat;          (* its recursion depth *)
  phase : Phase;
  current : Current
}.

Definition with_lock (s : Engine) (o : option nat) (c : nat) : Engine :=
  {| topology := topology s; field_config := field_config s;
     distance_field := distance_field s; lock_owner := o; lock_count := c;
     phase := phase s; current := current s |}.

Definition with_session (s : Engine) (df : PropagationDistanceField) (p : Phase)
    (cur : Current) : Engine :=
  {| topology := topology s; field_config := field_config s;
     distance_field := df; lock_owner := lock_owner s; lock_count := lock_count s;
     phase := p; current := cur |}.

Definition with_topology (s : Engine) (topo : Topology) (df : PropagationDistanceField) : Engine :=
  {| topology := topo; field_config := field_config s;
     distance_field := df; lock_owner := lock_owner s; lock_count := lock_count s;
     phase := phase s; current := current s |}.

(** [boost::recursive_mutex]: [None] when another thread holds it (the
    caller blocks). *)
Definition acquire (t : nat) (s : Engine) : option Engine :=
  match lock_owner s with
  | None => Some (with_lock s (Some t) 1)
  | Some t' => if Nat.eqb t t' then Some (with_lock s (Some t') (S (lock_count s))) else None
  end.

Definition release (t : nat) (s : Engine) : Engine :=
  match lock_owner s with
  | Some t' =>
      if Nat.eqb t t' then
        if Nat.leb (lock_count s) 1 then with_lock s None 0
        else with_lock s (Some t') (pred (lock_count s))
      else s
  | None => s
  end.

Inductive SessionError := ConfigurationError | SessionStateError.

Inductive Outcome (A : Type) :=
| Ok (a : A) (s : Engine)
| Err (e : SessionError) (s : Engine)
| Blocked.
Arguments Ok {A} a s.
Arguments Err {A} e s.
Arguments Blocked {A}.

Definition attached_of (topo : Topology) (link : string) : list string :=
  match find_entry (link_attached_objects topo) link with Some l => l | None => [] end.

Fixpoint resolve_links (model : list string) (links : list string)
    : option (list (string * nat)) :=
  match links with
  | [] => Some []
  | n :: links' =>
      match index_of model n, resolve_links model links' with
      | Some i, Some r => Some ((n, i) :: r)
      | _, _ => None
      end
  end.

(** [getGroupLinkAndAttachedBodyNames]: the group's links with their
    model indices, and the bodies attached to them with the index of
    the link they hang from; [None] for an unknown group. *)
Definition getGroupLinkAndAttachedBodyNames (topo : Topology) (group_name : string)
    : option (list string * list nat * list string * list nat) :=
  match find_entry (group_links topo) group_name with
  | None => None
  | Some links =>
      match resolve_links (model_links topo) links with
      | None => None
      | Some rl =>
          let ab := flat_map (fun e => map (fun a => (a, snd e)) (attached_of topo (fst e))) rl in
          Some (map fst rl, map snd rl, map fst ab, map snd ab)
      end
  end.

(** Entities without a decomposition are left out (GeometryError). *)
Definition keep_decomposed {D : Type} (store : list (string * D))
    (entries : list (string * nat)) : list (string * nat * D) :=
  fold_right (fun e acc =>
      match find_entry store (fst e) with
      | Some d => (fst e, snd e, d) :: acc
      | None => acc
      end) [] entries.

Definition pair_enabled (topo : Topology) (a b : string) : bool :=
  existsb (fun e => (String.eqb (fst e) a && String.eqb (snd e) b) ||
                    (String.eqb (fst e) b && String.eqb (snd e) a))
          (enabled_self_collision_links topo).

Definition attached_pair (topo : Topology) (a b : string) : bool :=
  existsb (String.eqb b) (attached_of topo a) || existsb (String.eqb a) (attached_of topo b).

(** The intra-group collision matrix over the entity names. *)
Definition intra_group_matrix (topo : Topology) (names : list string) : list (list bool) :=
  let n := List.length names in
  map (fun i => map (fun j =>
        let a := nth i names EmptyString in
        let b := nth j names EmptyString in
        negb (Nat.eqb i j) && pair_enabled topo a b && negb (attached_pair topo a b))
      (seq 0 n)) (seq 0 n).

Definition pose_of (ks : KinematicState) (link : string) : vec :=
  match find_entry ks link with Some p => p | None => zero_vec end.

(** [setBodyPosesGivenKinematicState] *)
Definition setBodyPosesGivenKinematicState (topo : Topology) (cur : Current)
    (ks : KinematicState) : Current :=
  {| current_group_name := current_group_name cur;
     current_link_names := current_link_names cur;
     current_attached_body_names := current_attached_body_names cur;
     current_link_indices := current_link_indices cur;
     current_attached_body_indices := current_attached_body_indices cur;
     current_link_body_decompositions := current_link_body_decompositions cur;
     current_attached_body_decompositions := current_attached_body_decompositions cur;
     current_intra_group_collision_links := current_intra_group_collision_links cur;
     current_environment_excludes := current_environment_excludes cur;
     current_link_poses := map (pose_of ks) (current_link_names cur);
     current_attached_body_poses :=
       map (fun i => pose_of ks (nth i (model_links topo) EmptyString))
           (current_attached_body_indices cur) |}.

Definition static_obstacles (topo : Topology) : list cell :=
  flat_map snd (static_object_map topo).

(** The caches [setupForGroupQueries] computes for a resolved group. *)
Definition group_current (topo : Topology) (group_name : string)
    (r : list string * list nat * list string * list nat) (ks : KinematicState) : Current :=
  let '(ln, li, an, ai) := r in
  let links := keep_decomposed (body_decomposition_map topo) (combine ln li) in
  let atts := keep_decomposed (attached_object_map topo) (combine an ai) in
  let names := map (fun e => fst (fst e)) links ++ map (fun e => fst (fst e)) atts in
  setBodyPosesGivenKinematicState topo
    {| current_group_name := group_name;
       current_link_names := map (fun e => fst (fst e)) links;
       current_attached_body_names := map (fun e => fst (fst e)) atts;
       current_link_indices := map (fun e => snd (fst e)) links;
       current_attached_body_indices := map (fun e => snd (fst e)) atts;
       current_link_body_decompositions := map snd links;
       current_attached_body_decompositions := map snd atts;
       current_intra_group_collision_links := intra_group_matrix topo names;
       current_environment_excludes :=
         map (fun n => existsb (String.eqb n) (environment_excludes topo)) names;
       current_link_poses := [];
       current_attached_body_poses := [] |} ks.

(** [setupForGroupQueries(group_name, state)] called by thread [t]. *)
Definition setupForGroupQueries (t : nat) (group_name : string) (ks : KinematicState)
    (s : Engine) : Outcome unit :=
  match acquire t s with
  | None => Blocked
  | Some s1 =>
      match getGroupLinkAndAttachedBodyNames (topology s1) group_name with
      | None => Err ConfigurationError (release t s1)
      | Some r =>
          Ok tt (with_session s1
                   (build (field_config s1) (static_obstacles (topology s1)))
                   Configured (group_current (topology s1) group_name r ks))
      end
  end.

(** [revertAfterGroupQueries()] called by thread [t]. *)
Definition revertAfterGroupQueries (t : nat) (s : Engine) : Engine :=
  release t (with_session s (distance_field s) Idle empty_current).

(** [setCurrentGroupState(state)] *)
Definition setCurrentGroupState (ks : KinematicState) (s : Engine) : Outcome unit :=
  match phase s with
  | Idle => Err SessionStateError s
  | Configured =>
      Ok tt (with_session s (distance_field s) Configured
               (setBodyPosesGivenKinematicState (topology s) (current s) ks))
  end.

(** The world spheres of the current entities: links, then attached bodies. *)
Definition current_entities (cur : Current) : list (list Sphere) :=
  map (fun e => map (place_sphere (fst e)) (snd e))
      (combine (current_link_poses cur) (current_link_body_decompositions cur)) ++
  map (fun e => map (place_sphere (fst e)) (List.concat (snd e)))
      (combine (current_attached_body_poses cur) (current_attached_body_decompositions cur)).

Definition isIntraGroupCollision (s : Engine) : bool :=
  Evaluator.isIntraGroupCollision (current_entities (current s))
    (current_intra_group_collision_links (current s)).

Definition isEnvironmentCollision (s : Engine) : bool :=
  Evaluator.isEnvironmentCollision (distance_field s) (current_entities (current s))
    (current_environment_excludes (current s)).

Definition isStateInCollision (s : Engine) : Outcome bool :=
  match phase s with
  | Idle => Err SessionStateError s
  | Configured =>
      Ok (Evaluator.isStateInCollision (distance_field s) (current_entities (current s))
            (current_intra_group_collision_links (current s))
            (current_environment_excludes (current s))) s
  end.

Definition getStateCollisions (s : Engine) : Outcome (bool * list Evaluator.CollisionType) :=
  match phase s with
  | Idle => Err SessionStateError s
  | Configured =>
      Ok (Evaluator.getStateCollisions (distance_field s) (current_entities (current s))
            (current_intra_group_collision_links (current s))
            (current_environment_excludes (current s))) s
  end.

Definition getStateGradients (subtract_radii : bool) (s : Engine)
    : Outcome (list Z * list (list Z) * list (list vec)) :=
  match phase s with
  | Idle => Err SessionStateError s
  | Configured =>
      Ok (Evaluator.getStateGradients (distance_field s) (current_entities (current s))
            (current_intra_group_collision_links (current s))
            (current_environment_excludes (current s)) subtract_radii) s
  end.

(** Object update events: attach/detach of an object to a link
    ([attachedObjectUpdateEvent]) and addition/removal of a static object
    ([staticObjectUpdateEvent]). *)
Inductive Event :=
| AttachObject (link obj : string) (dv : BodyDecompositionVector)
| DetachObject (obj : string)
| AddStaticObject (name : string) (voxels : list cell)
| RemoveStaticObject (name : string).

Definition apply_event (topo : Topology) (ev : Event) : Topology :=
  match ev with
  | AttachObject link obj dv =>
      {| group_links := group_links topo; model_links := model_links topo;
         link_attached_objects :=
           (link, obj :: attached_of topo link) :: remove_entry (link_attached_objects topo) link;
         body_decomposition_map := body_decomposition_map topo;
         attached_object_map := (obj, dv) :: remove_entry (attached_object_map topo) obj;
         static_object_map := static_object_map topo;
         enabled_self_collision_links := enabled_self_collision_links topo;
         environment_excludes := environment_excludes topo |}
  | DetachObject obj =>
      {| group_links := group_links topo; model_links := model_links topo;
         link_attached_objects :=
           map (fun e => (fst e, filter (fun a => negb (String.eqb a obj)) (snd e)))
               (link_attached_objects topo);
         body_decomposition_map := body_decomposition_map topo;
         attached_object_map := remove_entry (attached_object_map topo) obj;
         static_object_map := static_object_map topo;
         enabled_self_collision_links := enabled_self_collision_links topo;
         environment_excludes := environment_excludes topo |}
  | AddStaticObject name voxels =>
      {| group_links := group_links topo; model_links := model_links topo;
         link_attached_objects := link_attached_objects topo;
         body_decomposition_map := body_decomposition_map topo;
         attached_object_map := attached_object_map topo;
         static_object_map := (name, voxels) :: remove_entry (static_object_map topo) name;
         enabled_self_collision_links := enabled_self_collision_links topo;
         environment_excludes := environment_excludes topo |}
  | RemoveStaticObject name =>
      {| group_links := group_links topo; model_links := model_links topo;
         link_attached_objects := link_attached_objects topo;
         body_decomposition_map := body_decomposition_map topo;
         attached_object_map := attached_object_map topo;
         static_object_map := remove_entry (static_object_map topo) name;
         enabled_self_collision_links := enabled_self_collision_links topo;
         environment_excludes := environment_excludes topo |}
  end.

Definition objectUpdateEvent (ev : Event) (s : Engine) : Engine :=
  let topo := apply_event (topology s) ev in
  with_topology s topo (build (field_config s) (static_obstacles topo)).

(** Calls made on the engine. *)
Inductive Op :=
| OpSetup (t : nat) (group_name : string) (ks : KinematicState)
| OpRevert (t : nat)
| OpSetState (ks : KinematicState)
| OpIsStateInCollision
| OpGetStateCollisions
| OpGetStateGradients (subtract_radii : bool)
| OpEvent (ev : Event).

Definition outcome_state {A : Type} (o : Outcome A) (s : Engine) : Engine :=
  match o with Ok _ s' => s' | Err _ s' => s' | Blocked => s end.

Definition step (s : Engine) (op : Op) : Engine :=
  match op with
  | OpSetup t g ks => outcome_state (setupForGroupQueries t g ks s) s
  | OpRevert t => revertAfterGroupQueries t s
  | OpSetState ks => outcome_state (setCurrentGroupState ks s) s
  | OpIsStateInCollision => outcome_state (isStateInCollision s) s
  | OpGetStateCollisions => outcome_state (getStateCollisions s) s
  | OpGetStateGradients b => outcome_state (getStateGradients b s) s
  | OpEvent ev => objectUpdateEvent ev s
  end.

Definition run (s : Engine) (ops : list Op) : Engine := fold_left step ops s.

Definition is_event (op : Op) : bool :=
  match op with OpEvent _ => true | _ => false end.

(** [n] rounds of [setupForGroupQueries] immediately followed by
    [revertAfterGroupQueries] by thread [t]; [None] when a setup does not
    succeed (blocks or fails). *)
Fixpoint setup_revert_rounds (t : nat) (g : string) (ks : KinematicState) (n : nat)
    (s : Engine) : option Engine :=
  match n with
  | O => Some s
  | S n' =>
      match setupForGroupQueries t g ks s with
      | Ok _ s1 => setup_revert_rounds t g ks n' (revertAfterGroupQueries t s1)
      | _ => None
      end
  end.

End Session.

(* ================================================================= *)
(** ** planning_monitor.cpp: validity checks and frame transforms      *)
(* ================================================================= *)

Module PlanningMonitorChecks.
Import PlanningMonitor.

(** The other ArmNavigationErrorCodes values set in planning_monitor.cpp
    (their numeric values are declared in the message package, not among
    the sources; [OTHER_ERROR] tells them apart), and the value of a
    default-constructed code. *)
Definition SENSOR_INFO_STALE : ErrorCode := OTHER_ERROR 101.
Definition ROBOT_STATE_STALE : ErrorCode := OTHER_ERROR 102.
Definition COLLISION_CONSTRAINTS_VIOLATED : ErrorCode := OTHER_ERROR 103.
Definition JOINT_LIMITS_VIOLATED : ErrorCode := OTHER_ERROR 104.
Definition PATH_CONSTRAINTS_VIOLATED : ErrorCode := OTHER_ERROR 105.
Definition GOAL_CONSTRAINTS_VIOLATED : ErrorCode := OTHER_ERROR 106.
Definition DEFAULT_CODE : ErrorCode := OTHER_ERROR 0.

(** The bits of the [test] argument: [test & FLAG] is non-zero. *)
Record TestFlags := {
  COLLISION_TEST : bool;
  PATH_CONSTRAINTS_TEST : bool;
  GOAL_CONSTRAINTS_TEST : bool;
  JOINT_LIMITS_TEST : bool;
  CHECK_FULL_TRAJECTORY : bool
}.

(** motion_planning_msgs::RobotState (its joint_state part). *)
Record RobotStateMsg := {
  joint_state_name : list string;
  joint_state_position : list Z
}.

(** Freshness of the monitored data: [use_collision_map_], [haveMap_],
    [isMapUpdated(intervalCollisionMap_)], [isJointStateUpdated(intervalState_)],
    [isPoseUpdated(intervalPose_)]. *)
Record SensorStatus := {
  use_collision_map : bool;
  haveMap : bool;
  isMapUpdated : bool;
  isJointStateUpdated : bool;
  isPoseUpdated : bool
}.

(** [PlanningMonitor::isEnvironmentSafe] *)
Definition isEnvironmentSafe (st : SensorStatus) (error_code : ErrorCode) : bool * ErrorCode :=
  if use_collision_map st && (negb (haveMap st) || negb (isMapUpdated st))
  then (false, SENSOR_INFO_STALE)
  else if negb (isJointStateUpdated st) then (false, ROBOT_STATE_STALE)
  else if negb (isPoseUpdated st) then (false, FRAME_TRANSFORM_FAILURE)
  else (true, SUCCESS).

(** [std::map<std::string,double>::operator[]] followed by an assignment. *)
Fixpoint map_set (m : list (string * Z)) (k : string) (v : Z) : list (string * Z) :=
  match m with
  | [] => [(k, v)]
  | (k', v') :: m' => if String.eqb k k' then (k', v) :: m' else (k', v') :: map_set m' k v
  end.

(** [trajectory_error_codes[i].val = c] *)
Fixpoint set_code (codes : list ErrorCode) (i : nat) (c : ErrorCode) : list ErrorCode :=
  match codes, i with
  | [], _ => []
  | _ :: cs, O => c :: cs
  | c' :: cs, S i' => c' :: set_code cs i' c
  end.

(** [std::vector::resize(n)] with default-constructed codes. *)
Definition resize_codes (codes : list ErrorCode) (n : nat) : list ErrorCode :=
  firstn n codes ++ repeat DEFAULT_CODE (n - List.length codes).

(** The kinematic state of the robot state message, with trajectory
    joint values [jmap] set over it ([state.setKinematicState]). *)
Definition robot_state_values (rs : RobotStateMsg) : list (string * Z) :=
  combine (joint_state_name rs) (joint_state_position rs).

Definition set_state (jmap base : list (string * Z)) : list (string * Z) := jmap ++ base.

(** [joint_value_map[joints[j]->getName()] = 0.0] for every joint. *)
Definition init_joint_map (names : list string) : list (string * Z) :=
  fold_left (fun m n => map_set m n 0) names [].

(** [for j < positions.size(): joint_value_map[joint_names[j]] = positions[j]] *)
Definition set_point_values (m : list (string * Z)) (names : list string) (pos : list Z)
    : list (string * Z) :=
  fold_left (fun m e => map_set m (fst e) (snd e)) (combine names pos) m.

Section Oracles.

(** Collaborators: the kinematic model ([getJointModel]/[getJointState]
    not NULL), the collision environment ([getCollisionContacts] finds a
    contact), [areJointsWithinBounds], and the path and goal constraint
    evaluators, each applied to the joint values of the kinematic state. *)
Variable jointKnown : string -> bool.
Variable inCollision : list (string * Z) -> bool.
Variable areJointsWithinBounds : list (string * Z) -> list string -> bool.
Variable checkPathConstraints : list (string * Z) -> bool.
Variable checkGoalConstraints : list (string * Z) -> bool.

(** [PlanningMonitor::isStateValid]; returns the answer, the error code and
    the verbose flag the environment model is left with. *)
Definition isStateValid (rs : RobotStateMsg) (test : TestFlags) (verbose : bool)
    (env_verbose : bool) (error_code : ErrorCode) : bool * ErrorCode * bool :=
  let state := robot_state_values rs in
  let vlevel := env_verbose in
  if COLLISION_TEST test && inCollision state
  then (false, COLLISION_CONSTRAINTS_VIOLATED, verbose)
  else if JOINT_LIMITS_TEST test && negb (areJointsWithinBounds state (joint_state_name rs))
  then (false, JOINT_LIMITS_VIOLATED, verbose)
  else if PATH_CONSTRAINTS_TEST test && negb (checkPathConstraints state)
  then (false, PATH_CONSTRAINTS_VIOLATED, verbose)
  else if GOAL_CONSTRAINTS_TEST test && negb (checkGoalConstraints state)
  then (false, GOAL_CONSTRAINTS_VIOLATED, verbose)
  else (true, error_code, vlevel).

(** The variables of the point loop of [isTrajectoryValidAux]. *)
Record LoopState := {
  valid : bool;
  valid_all : bool;
  loop_error : ErrorCode;
  loop_codes : list ErrorCode;
  joint_value_map : list (string * Z);
  kstate : list (string * Z)
}.

Definition fail_point (st : LoopState) (i : Z) (c_error c_point : ErrorCode)
    (v va : bool) : LoopState :=
  {| valid := v; valid_all := va; loop_error := c_error;
     loop_codes := set_code (loop_codes st) (Z.to_nat i) c_point;
     joint_value_map := joint_value_map st; kstate := kstate st |}.

(** One iteration of [for (i = start; i <= end; ++i)]; the boolean is
    [true] on [break]. *)
Definition point_step (t : JointTrajectory) (base : list (string * Z))
    (test : TestFlags) (i : Z) (st : LoopState) : LoopState * bool :=
  let check_all := CHECK_FULL_TRAJECTORY test in
  let pos := positions (nth (Z.to_nat i) (points t) {| positions := [] |}) in
  if negb (Nat.eqb (List.length pos) (List.length (joint_names t))) then
    (fail_point st i INVALID_TRAJECTORY INVALID_TRAJECTORY false false, negb check_all)
  else
    let jmap := set_point_values (joint_value_map st) (joint_names t) pos in
    let state := set_state jmap base in
    let st := {| valid := valid st; valid_all := valid_all st; loop_error := loop_error st;
                 loop_codes := loop_codes st; joint_value_map := jmap; kstate := state |} in
    (* joint limits *)
    let jl := if JOINT_LIMITS_TEST test
              then Some (areJointsWithinBounds state (joint_names t)) else None in
    match jl with
    | Some false =>
        (fail_point st i JOINT_LIMITS_VIOLATED JOINT_LIMITS_VIOLATED false false, negb check_all)
    | _ =>
        let v1 := match jl with Some b => b | None => valid st end in
        let va1 := match jl with Some b => b && valid_all st | None => valid_all st end in
        (* collisions *)
        let v2 := if COLLISION_TEST test then negb (inCollision state) else v1 in
        let va2 := if COLLISION_TEST test then v2 && va1 else va1 in
        if negb v2 then
          (fail_point st i COLLISION_CONSTRAINTS_VIOLATED COLLISION_CONSTRAINTS_VIOLATED v2 va2,
           negb check_all)
        else if PATH_CONSTRAINTS_TEST test then
          let v3 := checkPathConstraints state in
          let va3 := v3 && va2 in
          if negb v3 then
            (fail_point st i PATH_CONSTRAINTS_VIOLATED COLLISION_CONSTRAINTS_VIOLATED v3 va3,
             negb check_all)
          else
            ({| valid := v3; valid_all := va3; loop_error := loop_error st;
                loop_codes := loop_codes st; joint_value_map := jmap; kstate := state |}, false)
        else
          ({| valid := v2; valid_all := va2; loop_error := loop_error st;
              loop_codes := loop_codes st; joint_value_map := jmap; kstate := state |}, false)
    end.

Fixpoint validity_loop (t : JointTrajectory) (base : list (string * Z)) (test : TestFlags)
    (i : Z) (fuel : nat) (st : LoopState) : LoopState :=
  match fuel with
  | O => st
  | S fuel' =>
      let '(st', brk) := point_step t base test i st in
      if brk then st' else validity_loop t base test (i + 1) fuel' st'
  end.

(** The result of [isTrajectoryValidAux]: the answer, [error_code],
    [trajectory_error_codes] and the environment model's verbose flag. *)
Record AuxResult := {
  aux_valid : bool;
  aux_error : ErrorCode;
  aux_codes : list ErrorCode;
  aux_verbose : bool
}.

(** [PlanningMonitor::isTrajectoryValidAux] *)
Definition isTrajectoryValidAux (t : JointTrajectory) (rs : RobotStateMsg)
    (start end_ : Z) (test : TestFlags) (verbose env_verbose : bool)
    (error_code : ErrorCode) (trajectory_error_codes : list ErrorCode) : AuxResult :=
  let base := robot_state_values rs in
  let vlevel := env_verbose in
  if existsb (fun n => negb (jointKnown n)) (joint_names t) then
    {| aux_valid := false; aux_error := INVALID_TRAJECTORY;
       aux_codes := trajectory_error_codes; aux_verbose := verbose |}
  else
    let st0 := {| valid := true; valid_all := true; loop_error := error_code;
                  loop_codes := resize_codes trajectory_error_codes (List.length (points t));
                  joint_value_map := init_joint_map (joint_names t); kstate := base |} in
    (* [end - start + 1] iterations; with [end = 2^32 - 1] the unsigned
       counter of the source never exceeds [end]. *)
    let st := validity_loop t base test start (Z.to_nat (end_ - start + 1)) st0 in
    if valid_all st && GOAL_CONSTRAINTS_TEST test then
      let v := checkGoalConstraints (kstate st) in
      {| aux_valid := v && valid_all st;
         aux_error := if v then loop_error st else GOAL_CONSTRAINTS_VIOLATED;
         aux_codes := loop_codes st; aux_verbose := vlevel |}
    else
      {| aux_valid := valid_all st; aux_error := loop_error st;
         aux_codes := loop_codes st; aux_verbose := vlevel |}.

(** [PlanningMonitor::transformJoint]: [frame_id = target] when the joint
    is known. Returns the answer, [frame_id] and [error_code]. *)
Definition transformJoint (name : string) (frame_id target : string)
    (error_code : ErrorCode) : bool * string * ErrorCode :=
  if jointKnown name then (true, target, error_code)
  else (false, frame_id, INVALID_TRAJECTORY).

(** The loop over the robot state's joints in [transformTrajectoryToFrame],
    each call [transformJointToFrame(position[i], name[i], kp.header.frame_id, ...)]. *)
Fixpoint transform_state_joints (names : list string) (frame_id target : string)
    (error_code : ErrorCode) : bool * string * ErrorCode :=
  match names with
  | [] => (true, frame_id, error_code)
  | n :: names' =>
      let '(ok, f, ec) := transformJoint n frame_id target error_code in
      if ok then transform_state_joints names' f target ec else (false, f, ec)
  end.

Definition with_frame (t : JointTrajectory) (f : string) : JointTrajectory :=
  {| frame_id := f; joint_names := joint_names t; points := points t |}.

(** [PlanningMonitor::transformTrajectoryToFrame]; returns the answer, the
    trajectory [kp] as left by the call and [error_code]. *)
Definition transformTrajectoryToFrame (kp : JointTrajectory) (rs : RobotStateMsg)
    (target : string) (error_code : ErrorCode) : bool * JointTrajectory * ErrorCode :=
  let names := firstn (List.length (joint_state_position rs)) (joint_state_name rs) in
  let '(ok, f, ec) := transform_state_joints names (frame_id kp) target error_code in
  if negb ok then (false, with_frame kp f, ec)
  else if existsb (fun n => negb (jointKnown n)) (joint_names kp)
  then (false, with_frame kp f, INVALID_TRAJECTORY)
  else (true, with_frame kp target, ec).

(** The same call as [closestStateOnTrajectory] and [isTrajectoryValid]
    make it on their copy [pathT]. *)
Definition transformTrajectoryToFrame_copy (kp : JointTrajectory) (rs : RobotStateMsg)
    (target : string) (error_code : ErrorCode) : option JointTrajectory * ErrorCode :=
  let '(ok, kp', ec) := transformTrajectoryToFrame kp rs target error_code in
  (if ok then Some kp' else None, ec).

End Oracles.

End PlanningMonitorChecks.

Module PlanningMonitorSetup.
Import PlanningMonitor PlanningMonitorChecks.

(** motion_planning_msgs::CollisionOperation *)
Inductive Operation := DISABLE | ENABLE.

Record CollisionOperation := {
  object1 : string;
  object2 : string;
  operation : Operation
}.

(** [CollisionOperation::COLLISION_SET_ALL] (a constant of the message). *)
Definition COLLISION_SET_ALL : string := "all".

Definition point3 := (Z * Z * Z)%type.
Definition quaternion := (Z * Z * Z * Z)%type.

(** motion_planning_msgs::Constraints, with the fields the monitor reads
    or writes (time stamps left out). *)
Record JointConstraint := { jc_joint_name : string; jc_position : Z }.
Record PositionConstraint := {
  pc_frame : string;
  pc_link_name : string;
  pc_position : point3;
  pc_region_orientation : quaternion
}.
Record OrientationConstraint := {
  oc_frame : string;
  oc_link_name : string;
  oc_orientation : quaternion
}.
Record VisibilityConstraint := { vc_target_frame : string; vc_target : point3 }.
Record Constraints := {
  joint_constraints : list JointConstraint;
  position_constraints : list PositionConstraint;
  orientation_constraints : list OrientationConstraint;
  visibility_constraints : list VisibilityConstraint
}.

Definition empty_constraints : Constraints :=
  {| joint_constraints := []; position_constraints := [];
     orientation_constraints := []; visibility_constraints := [] |}.

(** [std::map<std::string, unsigned int>::find] *)
Fixpoint index_find (m : list (string * nat)) (k : string) : option nat :=
  match m with
  | [] => None
  | (k', v) :: m' => if String.eqb k k' then Some v else index_find m' k
  end.

(** [std::set<std::string>::insert], the set kept as its ordered
    sequence ([std::string] compares character codes lexicographically). *)
Fixpoint set_insert (x : string) (s : list string) : list string :=
  match s with
  | [] => [x]
  | y :: s' =>
      match String.compare x y with
      | Eq => s
      | Lt => x :: s
      | Gt => y :: set_insert x s'
      end
  end.

Section Environment.

(** [getEnvironmentModel()->getAttachedBodies()]: each attached body's name
    and the name of its attached link. *)
Variable attached_bodies : list (string * string).
(** [getDefaultAllowedCollisionMatrix(current_allowed, vec_indices)], the
    map [vec_indices] in its iteration order. *)
Variable current_allowed : list (list bool).
Variable vec_indices : list (string * nat).
(** The kinematic model: the child link of a known joint that has one
    ([getJointModel], [getChildLinkModel]), and the names of the links
    [getChildLinkModels] returns for a link. *)
Variable joint_child_link : string -> option string.
Variable child_link_models : string -> list string.

(** [PlanningMonitor::getChildLinks]; [link_names] is appended to. *)
Definition getChildLinks (joints : list string) (link_names : list string) : list string :=
  let links_set :=
    fold_left (fun s j =>
                 match joint_child_link j with
                 | Some c => fold_left (fun s l => set_insert l s) (child_link_models c) s
                 | None => s
                 end) joints [] in
  link_names ++ links_set.

(** The bodies attached to the links, in the order of the nested loops. *)
Definition attached_to_links (links : list string) : list string :=
  flat_map (fun att =>
              flat_map (fun l => if String.eqb (snd att) l then [fst att] else []) links)
           attached_bodies.

Definition all_collision_links (links : list string) : list string :=
  links ++ attached_to_links links.

Definition enable_ops (links : list string) : list CollisionOperation :=
  map (fun l => {| object1 := l; object2 := COLLISION_SET_ALL; operation := ENABLE |}) links.

(** [current_allowed[index][j]] *)
Definition allowed_entry (index j : nat) : bool :=
  nth j (nth index current_allowed []) false.

Definition disable_ops (links : list string) : list CollisionOperation :=
  flat_map (fun l =>
              match index_find vec_indices l with
              | None => []
              | Some index =>
                  flat_map (fun e =>
                              if allowed_entry index (snd e)
                              then [{| object1 := l; object2 := fst e; operation := DISABLE |}]
                              else []) vec_indices
              end) links.

(** [PlanningMonitor::getOrderedCollisionOperationsForOnlyCollideLinks]:
    the new value of [result_collision_operations.collision_operations]. *)
Definition getOrderedCollisionOperationsForOnlyCollideLinks
    (collision_check_links : list string) (requested : list CollisionOperation)
    : list CollisionOperation :=
  let all := all_collision_links collision_check_links in
  {| object1 := COLLISION_SET_ALL; object2 := COLLISION_SET_ALL; operation := DISABLE |}
    :: enable_ops all ++ disable_ops all ++ requested.

End Environment.

Section Frames.

(** tf: [transformPoint] and [transformQuaternion] to [target] from a
    frame; [None] when tf throws. A transformed message is in [target]. *)
Variable transformPoint : string -> string -> point3 -> option point3.
Variable transformQuaternion : string -> string -> quaternion -> option quaternion.

Fixpoint transform_positions (target : string) (cs : list PositionConstraint)
    : list PositionConstraint * bool :=
  match cs with
  | [] => ([], true)
  | c :: cs' =>
      match transformPoint target (pc_frame c) (pc_position c) with
      | None => (cs, false)
      | Some p =>
          match transformQuaternion target (pc_frame c) (pc_region_orientation c) with
          | None =>
              ({| pc_frame := pc_frame c; pc_link_name := pc_link_name c; pc_position := p;
                  pc_region_orientation := pc_region_orientation c |} :: cs', false)
          | Some _ =>
              let '(r, ok) := transform_positions target cs' in
              ({| pc_frame := target; pc_link_name := pc_link_name c; pc_position := p;
                  pc_region_orientation := pc_region_orientation c |} :: r, ok)
          end
      end
  end.

Fixpoint transform_orientations (target : string) (cs : list OrientationConstraint)
    : list OrientationConstraint * bool :=
  match cs with
  | [] => ([], true)
  | c :: cs' =>
      match transformQuaternion target (oc_frame c) (oc_orientation c) with
      | None => (cs, false)
      | Some q =>
          let '(r, ok) := transform_orientations target cs' in
          ({| oc_frame := target; oc_link_name := oc_link_name c; oc_orientation := q |} :: r, ok)
      end
  end.

Fixpoint transform_visibility (target : string) (cs : list VisibilityConstraint)
    : list VisibilityConstraint * bool :=
  match cs with
  | [] => ([], true)
  | c :: cs' =>
      match transformPoint target (vc_target_frame c) (vc_target c) with
      | None => (cs, false)
      | Some p =>
          let '(r, ok) := transform_visibility target cs' in
          ({| vc_target_frame := target; vc_target := p |} :: r, ok)
      end
  end.

(** [PlanningMonitor::transformConstraintsToFrame]: the answer, the
    constraints as left by the call and [error_code]. The wait on
    [canTransform] only delays. *)
Definition transformConstraintsToFrame (cs : Constraints) (target : string)
    (error_code : ErrorCode) : bool * Constraints * ErrorCode :=
  let '(ps, ok1) := transform_positions target (position_constraints cs) in
  let cs1 := {| joint_constraints := joint_constraints cs; position_constraints := ps;
                orientation_constraints := orientation_constraints cs;
                visibility_constraints := visibility_constraints cs |} in
  if negb ok1 then (false, cs1, FRAME_TRANSFORM_FAILURE) else
  let '(os, ok2) := transform_orientations target (orientation_constraints cs1) in
  let cs2 := {| joint_constraints := joint_constraints cs1; position_constraints := ps;
                orientation_constraints := os;
                visibility_constraints := visibility_constraints cs1 |} in
  if negb ok2 then (false, cs2, FRAME_TRANSFORM_FAILURE) else
  let '(vs, ok3) := transform_visibility target (visibility_constraints cs2) in
  let cs3 := {| joint_constraints := joint_constraints cs2; position_constraints := ps;
                orientation_constraints := os; visibility_constraints := vs |} in
  if negb ok3 then (false, cs3, FRAME_TRANSFORM_FAILURE) else
  (true, cs3, SUCCESS).

(** The monitor's state touched by [prepareForValidityChecks] and
    [revertToDefaultState]: the lock count of the environment model,
    [allowedContacts_] and the two constraint sets. (The collision-space
    calls they make, to code outside these sources, are not part of it.) *)
Section Contacts.
Variables AllowedContactSpecification AllowedContact : Type.
Variable computeAllowedContact : AllowedContactSpecification -> option AllowedContact.
Variable world_frame : string.

Record Monitor := {
  env_locks : nat;
  allowedContacts_ : list AllowedContact;
  path_constraints_ : Constraints;
  goal_constraints_ : Constraints
}.

(** [PlanningMonitor::setAllowedContacts] (from the specifications). *)
Definition setAllowedContacts (m : Monitor) (specs : list AllowedContactSpecification) : Monitor :=
  {| env_locks := env_locks m;
     allowedContacts_ := fold_left (fun acc s =>
                                      match computeAllowedContact s with
                                      | Some ac => acc ++ [ac]
                                      | None => acc
                                      end) specs [];
     path_constraints_ := path_constraints_ m; goal_constraints_ := goal_constraints_ m |}.

(** [PlanningMonitor::setPathConstraints] *)
Definition setPathConstraints (m : Monitor) (c : Constraints) (error_code : ErrorCode)
    : bool * Monitor * ErrorCode :=
  let '(ok, c', ec) := transformConstraintsToFrame c world_frame error_code in
  (ok, {| env_locks := env_locks m; allowedContacts_ := allowedContacts_ m;
          path_constraints_ := c'; goal_constraints_ := goal_constraints_ m |}, ec).

(** [PlanningMonitor::setGoalConstraints] *)
Definition setGoalConstraints (m : Monitor) (c : Constraints) (error_code : ErrorCode)
    : bool * Monitor * ErrorCode :=
  let '(ok, c', ec) := transformConstraintsToFrame c world_frame error_code in
  (ok, {| env_locks := env_locks m; allowedContacts_ := allowedContacts_ m;
          path_constraints_ := path_constraints_ m; goal_constraints_ := c' |}, ec).

(** [PlanningMonitor::prepareForValidityChecks] *)
Definition prepareForValidityChecks (m : Monitor) (allowed_contacts : list AllowedContactSpecification)
    (path_constraints goal_constraints : Constraints) (error_code : ErrorCode)
    : bool * Monitor * ErrorCode :=
  let m1 := {| env_locks := S (env_locks m); allowedContacts_ := allowedContacts_ m;
               path_constraints_ := path_constraints_ m; goal_constraints_ := goal_constraints_ m |} in
  let m2 := setAllowedContacts m1 allowed_contacts in
  let '(ok, m3, ec) := setPathConstraints m2 path_constraints error_code in
  if negb ok then (false, m3, ec) else
  let '(ok', m4, ec') := setGoalConstraints m3 goal_constraints ec in
  if negb ok' then (false, m4, ec') else (true, m4, ec').

(** [PlanningMonitor::clearConstraints] *)
Definition clearConstraints (m : Monitor) : Monitor :=
  {| env_locks := env_locks m; allowedContacts_ := allowedContacts_ m;
     path_constraints_ := empty_constraints; goal_constraints_ := empty_constraints |}.

(** [PlanningMonitor::clearAllowedContacts] *)
Definition clearAllowedContacts (m : Monitor) : Monitor :=
  {| env_locks := env_locks m; allowedContacts_ := [];
     path_constraints_ := path_constraints_ m; goal_constraints_ := goal_constraints_ m |}.

(** [PlanningMonitor::revertToDefaultState] *)
Definition revertToDefaultState (m : Monitor) : Monitor :=
  let m' := clearConstraints (clearAllowedContacts m) in
  {| env_locks := pred (env_locks m'); allowedContacts_ := allowedContacts_ m';
     path_constraints_ := path_constraints_ m'; goal_constraints_ := goal_constraints_ m' |}.

End Contacts.

End Frames.

End PlanningMonitorSetup.

(** The whole-trajectory overloads and the reference reading of the point
    checks of [isTrajectoryValidAux]. *)
Module PlanningMonitorOverloads.
Import PlanningMonitor PlanningMonitorChecks.

Section Overloads.
Variable jointKnown : string -> bool.
Variable inCollision : list (string * Z) -> bool.
Variable areJointsWithinBounds : list (string * Z) -> list string -> bool.
Variable checkPathConstraints : list (string * Z) -> bool.
Variable checkGoalConstraints : list (string * Z) -> bool.
Variable getWorldFrameId : string.

(** [isTrajectoryValid] with its collaborators: [transformTrajectoryToFrame]
    and [isTrajectoryValidAux] of this file. Returns the answer and
    [error_code]. *)
Definition isTrajectoryValid_full (t : JointTrajectory) (rs : RobotStateMsg)
    (start end_ : Z) (test : TestFlags) (verbose env_verbose : bool)
    (error_code : ErrorCode) (trajectory_error_codes : list ErrorCode) : bool * ErrorCode :=
  isTrajectoryValid RobotStateMsg getWorldFrameId
    (transformTrajectoryToFrame_copy jointKnown)
    (fun t' rs' s e ec =>
       let r := isTrajectoryValidAux jointKnown inCollision areJointsWithinBounds
                  checkPathConstraints checkGoalConstraints t' rs' s e test verbose
                  env_verbose ec trajectory_error_codes in
       (aux_valid r, aux_error r))
    t rs start end_ error_code.

(** [closestStateOnTrajectory] with [transformTrajectoryToFrame] of this file. *)
Definition closestStateOnTrajectory_full (vals : list (string * Z)) (t : JointTrajectory)
    (rs : RobotStateMsg) (start end_ : Z) (error_code : ErrorCode) : Z * ErrorCode :=
  closestStateOnTrajectory RobotStateMsg getWorldFrameId
    (transformTrajectoryToFrame_copy jointKnown) vals t rs start end_ error_code.

(** [closestStateOnTrajectory(trajectory, robot_state, error_code)]:
    [start = 0], [end = trajectory.points.size() - 1]. *)
Definition closestStateOnTrajectory_whole (vals : list (string * Z)) (t : JointTrajectory)
    (rs : RobotStateMsg) (error_code : ErrorCode) : Z * ErrorCode :=
  closestStateOnTrajectory_full vals t rs 0 (size_minus_one t) error_code.

(** [isTrajectoryValid(trajectory, robot_state, test, verbose, error_code,
    trajectory_error_codes)]: [start = 0], [end = trajectory.points.size() - 1]. *)
Definition isTrajectoryValid_whole (t : JointTrajectory) (rs : RobotStateMsg)
    (test : TestFlags) (verbose env_verbose : bool) (error_code : ErrorCode)
    (trajectory_error_codes : list ErrorCode) : bool * ErrorCode :=
  isTrajectoryValid_full t rs 0 (size_minus_one t) test verbose env_verbose error_code
    trajectory_error_codes.

(** Reference reading: the kinematic state at point [i] (its positions set
    over the zero-initialised joint map, over the robot state), and whether
    point [i] passes the checks [test] enables. *)
Definition point_positions (t : JointTrajectory) (i : Z) : list Z :=
  positions (nth (Z.to_nat i) (points t) {| positions := [] |}).

Definition point_state (t : JointTrajectory) (base : list (string * Z)) (i : Z)
    : list (string * Z) :=
  set_state (set_point_values (init_joint_map (joint_names t)) (joint_names t)
               (point_positions t i)) base.

Definition point_ok (t : JointTrajectory) (base : list (string * Z)) (test : TestFlags)
    (i : Z) : bool :=
  let s := point_state t base i in
  Nat.eqb (List.length (point_positions t i)) (List.length (joint_names t))
  && (negb (JOINT_LIMITS_TEST test) || areJointsWithinBounds s (joint_names t))
  && (negb (COLLISION_TEST test) || negb (inCollision s))
  && (negb (PATH_CONSTRAINTS_TEST test) || checkPathConstraints s).

End Overloads.
End PlanningMonitorOverloads.

(** Notions used in the reasoning about the code above. *)
Module PlanningMonitorNotions.
Import PlanningMonitorChecks PlanningMonitorSetup.

(** The keys of a joint value map, in its order. *)
Definition keys (m : list (string * Z)) : list string := map fst m.

(** One assignment [m[k] = v] on an entry whose key is present. *)
Definition set_entry (k : string) (v : Z) (e : string * Z) : string * Z :=
  (fst e, if String.eqb k (fst e) then v else snd e).

(** The last value a sequence of assignments gives to [k]. *)
Definition lastval (ps : list (string * Z)) (k : string) (v : Z) : Z :=
  fold_left (fun v e => if String.eqb (fst e) k then snd e else v) ps v.

(** The order of [std::set<std::string>]. *)
Definition str_lt (a b : string) : Prop := String.compare a b = Lt.

Section Tf.
Variable transformPoint : string -> string -> point3 -> option point3.
Variable transformQuaternion : string -> string -> quaternion -> option quaternion.

(** Both tf calls made for a position constraint succeed. *)
Definition position_ok (target : string) (c : PositionConstraint) : Prop :=
  transformPoint target (pc_frame c) (pc_position c) <> None
  /\ transformQuaternion target (pc_frame c) (pc_region_orientation c) <> None.
End Tf.

End PlanningMonitorNotions.

(** Inputs for the witnesses of the planning monitor checks. *)
Module ChecksExamples.
Import PlanningMonitor PlanningMonitorChecks PlanningMonitorSetup.

(** A model with the joints "a" and "b"; a state collides when "a" exceeds
    4, "b" has the limits [0, 5] and the path constraints ask for "b" below 3. *)
Definition wx_known (n : string) : bool := String.eqb n "a" || String.eqb n "b".

Definition wx_value (s : list (string * Z)) (n : string) : Z :=
  match map_find s n with Some v => v | None => 0 end.

Definition wx_collision (s : list (string * Z)) : bool := 4 <? wx_value s "a".

Definition wx_bounds (s : list (string * Z)) (names : list string) : bool :=
  (0 <=? wx_value s "b") && (wx_value s "b" <=? 5).

Definition wx_path (s : list (string * Z)) : bool := wx_value s "b" <? 3.

Definition wx_goal (s : list (string * Z)) : bool := wx_value s "a" =? 1.

Definition wx_rs : RobotStateMsg :=
  {| joint_state_name := ["a"; "b"]%string; joint_state_position := [0; 0] |}.

Definition wx_all : TestFlags :=
  {| COLLISION_TEST := true; PATH_CONSTRAINTS_TEST := true; GOAL_CONSTRAINTS_TEST := true;
     JOINT_LIMITS_TEST := true; CHECK_FULL_TRAJECTORY := true |}.

Definition wx_first_failure : TestFlags :=
  {| COLLISION_TEST := true; PATH_CONSTRAINTS_TEST := true; GOAL_CONSTRAINTS_TEST := true;
     JOINT_LIMITS_TEST := true; CHECK_FULL_TRAJECTORY := false |}.

Definition wx_path_only : TestFlags :=
  {| COLLISION_TEST := false; PATH_CONSTRAINTS_TEST := true; GOAL_CONSTRAINTS_TEST := false;
     JOINT_LIMITS_TEST := false; CHECK_FULL_TRAJECTORY := true |}.

(** Three points: valid, violating the path constraints, valid. *)
Definition wx_traj : JointTrajectory :=
  {| frame_id := "base"; joint_names := ["a"; "b"]%string;
     points := [ {| positions := [1; 1] |}; {| positions := [1; 4] |};
                 {| positions := [1; 2] |} ] |}.

(** A point without a value for "b" between two full ones. *)
Definition wx_gap : JointTrajectory :=
  {| frame_id := "base"; joint_names := ["a"; "b"]%string;
     points := [ {| positions := [1; 1] |}; {| positions := [3] |};
                 {| positions := [1; 1] |} ] |}.

(** The same joints in another frame, one of them unknown to the model. *)
Definition wx_foreign : JointTrajectory :=
  {| frame_id := "odom"; joint_names := ["a"; "c"]%string;
     points := [ {| positions := [1; 1] |} ] |}.

Definition wx_empty : JointTrajectory :=
  {| frame_id := "base"; joint_names := ["a"; "b"]%string; points := [] |}.

Definition wx_vals : list (string * Z) := [("a", 0); ("b", 0)]%string.

(** A cup attached to "l2", which may touch "l1". *)
Definition wx_attached : list (string * string) := [("cup", "l2")]%string.
Definition wx_allowed : list (list bool) := [[false; true]; [true; false]].
Definition wx_indices : list (string * nat) := [("l1", 0%nat); ("l2", 1%nat)]%string.

End ChecksExamples.

(* ================================================================= *)
(** ** Concrete inputs used by the witnesses                          *)
(* ================================================================= *)

Module Examples.
Import PlanningMonitor Geometry DistanceField Session.

Definition wit_traj : JointTrajectory :=
  {| frame_id := "base"; joint_names := ["a"; "b"]%string;
     points := [ {| positions := [3; 0] |}; {| positions := [1; 1] |};
                 {| positions := [1; 1] |}; {| positions := [5; 5] |} ] |}.

Definition wit_vals : list (string * Z) := [("a", 0); ("b", 0)]%string.

Definition wit_cfg : Config :=
  {| size_x := 60; size_y := 60; size_z := 60;
     origin_x := 0; origin_y := 0; origin_z := 0;
     resolution := 10; tolerance := 1; max_distance := 20 |}.

(** A two-link group "arm" with a cup attached to its second link and
    a static box in the environment. *)
Definition wit_topology : Topology :=
  {| group_links := [("arm", ["l1"; "l2"])]%string;
     model_links := ["base"; "l1"; "l2"]%string;
     link_attached_objects := [("l2", ["cup"])]%string;
     body_decomposition_map :=
       [("l1", [ {| center := (0, 0, 0); radius := 3 |} ]);
        ("l2", [ {| center := (0, 0, 0); radius := 3 |}; {| center := (5, 0, 0); radius := 2 |} ])]%string;
     attached_object_map := [("cup", [[ {| center := (0, 0, 5); radius := 1 |} ]])]%string;
     static_object_map := [("box", [(3, 1, 1)])]%string;
     enabled_self_collision_links := [("l1", "l2"); ("l1", "cup")]%string;
     environment_excludes := [] |}.

Definition wit_engine : Engine :=
  {| topology := wit_topology; field_config := wit_cfg;
     distance_field := build wit_cfg []; lock_owner := None; lock_count := 0%nat;
     phase := Idle; current := empty_current |}.

Definition wit_state : KinematicState :=
  [("l1", (15, 15, 15)); ("l2", (20, 15, 15))]%string.

(** The engine after thread 1 set up the group "arm". *)
Definition wit_configured : Engine :=
  match setupForGroupQueries 1 "arm" wit_state wit_engine with
  | Ok _ s => s
  | _ => wit_engine
  end.

(** Calls between two setups: queries and a revert, no object event. *)
Definition wit_trace : list Op :=
  [OpIsStateInCollision; OpGetStateGradients true; OpSetState wit_state; OpRevert 1].

Definition wit_second_state : KinematicState :=
  [("l1", (25, 25, 25)); ("l2", (35, 25, 25))]%string.

(** The engine after thread 2 set the group up again. *)
Definition wit_resetup : Engine :=
  match setupForGroupQueries 2 "arm" wit_second_state (run wit_configured wit_trace) with
  | Ok _ s => s
  | _ => wit_engine
  end.

End Examples.

(* ================================================================= *)
(** ** Proofs: planning monitor                                         *)
(* ================================================================= *)

Module PlanningMonitorProofs.
Import PlanningMonitor ClosestStateSpec Examples.

Lemma point_distance_loop_acc vals names pos d :
  (List.length names <= List.length pos)%nat ->
  point_distance_loop vals names pos d =
  d + fold_right Z.add 0
        (map (fun j => (nth j pos 0 - current_value vals (nth j names EmptyString)) ^ 2)
           (seq 0 (List.length names))).
Proof.
  revert pos d; induction names as [|n names IH]; intros pos d Hlen.
  - simpl; lia.
  - destruct pos as [|p pos]; [simpl in Hlen; lia|].
    simpl in Hlen. cbn [point_distance_loop List.length].
    rewrite IH by lia.
    cbn [seq map fold_right nth].
    rewrite <- seq_shift, map_map.
    cbn [nth].
    unfold current_value, fabs.
    rewrite Z.abs_square. ring.
Qed.

Lemma point_distance_claim vals t i :
  (List.length (joint_names t) <=
   List.length (positions (nth (Z.to_nat i) (points t) {| positions := [] |})))%nat ->
  point_distance vals t i = claim_sq_distance vals t i.
Proof.
  intros H. unfold point_distance, claim_sq_distance.
  rewrite point_distance_loop_acc by exact H. lia.
Qed.

Section Loop.
Variable f : Z -> Z.
Variables (vals : list (string * Z)) (t : JointTrajectory).
Hypothesis Hf : forall i, point_distance vals t i = f i.

(** The loop keeps the first index of least cost seen so far. *)
Lemma closest_loop_first_min k : forall i pos,
  0 <= pos < i ->
  let r := closest_loop vals t i k pos (f pos) in
  (r = pos \/ i <= r < i + Z.of_nat k) /\
  f r <= f pos /\
  (forall j, i <= j < i + Z.of_nat k -> f r <= f j) /\
  (forall j, (j = pos \/ i <= j) -> j < r -> f r < f j).
Proof.
  induction k as [|k IH]; intros i pos Hpos r; subst r; simpl.
  - repeat split; intros; try lia.
  - rewrite Hf.
    replace (pos <? 0) with false by (symmetry; apply Z.ltb_ge; lia).
    simpl. destruct (f i <? f pos) eqn:Hlt.
    + apply Z.ltb_lt in Hlt.
      destruct (IH (i + 1) i ltac:(lia)) as (H1 & H2 & H3 & H4).
      set (r := closest_loop vals t (i + 1) k i (f i)) in *.
      repeat split.
      * lia.
      * lia.
      * intros j Hj. destruct (Z.eq_dec j i); [subst; lia|]. apply H3; lia.
      * intros j [->|Hj] Hjr; [lia|].
        destruct (Z.eq_dec j i) as [->|]; [apply H4; lia|]. apply H4; lia.
    + apply Z.ltb_ge in Hlt.
      destruct (IH (i + 1) pos ltac:(lia)) as (H1 & H2 & H3 & H4).
      set (r := closest_loop vals t (i + 1) k pos (f pos)) in *.
      repeat split.
      * lia.
      * lia.
      * intros j Hj. destruct (Z.eq_dec j i); [subst; lia|]. apply H3; lia.
      * intros j [->|Hj] Hjr; [apply H4; lia|].
        destruct (Z.eq_dec j i) as [->|].
        -- assert (f r < f pos) by (apply H4; lia). lia.
        -- apply H4; lia.
Qed.

Lemma closest_loop_from_start start end_ :
  0 <= start <= end_ ->
  let r := closest_loop vals t start (Z.to_nat (end_ - start + 1)) (-1) 0 in
  start <= r <= end_ /\
  (forall j, start <= j <= end_ -> f r <= f j) /\
  (forall j, start <= j < r -> f r < f j).
Proof.
  intros Hr r; subst r.
  replace (Z.to_nat (end_ - start + 1)) with (S (Z.to_nat (end_ - start))) by lia.
  simpl. rewrite Hf.
  destruct (closest_loop_first_min (Z.to_nat (end_ - start)) (start + 1) start
              ltac:(lia)) as (H1 & H2 & H3 & H4).
  set (r := closest_loop vals t (start + 1) (Z.to_nat (end_ - start)) start (f start)) in *.
  repeat split.
  - lia.
  - lia.
  - intros j Hj. destruct (Z.eq_dec j start) as [->|]; [lia|]. apply H3; lia.
  - intros j Hj. apply H4; lia.
Qed.

End Loop.

(** ** C9 *)
(** [isTrajectoryValid] called with [start] above the clamped [end] answers
    [true] (the trajectory is reported valid) while setting the error code
    to INVALID_INDEX; [closestStateOnTrajectory] on the same range answers
    [-1] with INVALID_INDEX. *)
Theorem isTrajectoryValid_invalid_range_true :
  forall (RobotState : Type) world transform aux vals t (rs : RobotState)
         start end0 ec,
    clamp_end t end0 < start ->
    isTrajectoryValid RobotState world transform aux t rs start end0 ec = (true, INVALID_INDEX) /\
    closestStateOnTrajectory RobotState world transform vals t rs start end0 ec = (-1, INVALID_INDEX).
Proof.
  intros RobotState world transform aux vals t rs start end0 ec H.
  unfold isTrajectoryValid, closestStateOnTrajectory.
  apply Z.ltb_lt in H. rewrite H. split; reflexivity.
Qed.

(** ** C10 *)
(** When every trajectory joint is known, [closestStateOnTrajectoryAux]
    returns the smallest index in [start, end] of least summed squared
    joint difference to the current joint values (error code untouched);
    when some joint name is unknown it returns -1 with INVALID_TRAJECTORY. *)
Theorem closestStateOnTrajectoryAux_spec :
  forall vals t start end_ ec,
    ((exists n, In n (joint_names t) /\ map_find vals n = None) ->
     closestStateOnTrajectoryAux vals t start end_ ec = (-1, INVALID_TRAJECTORY)) /\
    ((forall n, In n (joint_names t) -> map_find vals n <> None) ->
     0 <= start <= end_ -> end_ < Z.of_nat (List.length (points t)) ->
     (forall p, In p (points t) ->
        (List.length (joint_names t) <= List.length (positions p))%nat) ->
     exists r,
       closestStateOnTrajectoryAux vals t start end_ ec = (r, ec) /\
       start <= r <= end_ /\
       (forall j, start <= j <= end_ -> claim_sq_distance vals t r <= claim_sq_distance vals t j) /\
       (forall j, start <= j < r -> claim_sq_distance vals t r < claim_sq_distance vals t j)).
Proof.
  intros vals t start end_ ec. split.
  - intros (n & Hin & Hn). unfold closestStateOnTrajectoryAux.
    replace (existsb _ _) with true; [reflexivity|].
    symmetry. apply existsb_exists. exists n. rewrite Hn. auto.
  - intros Hknown Hr Hend Hpos.
    unfold closestStateOnTrajectoryAux.
    replace (existsb _ _) with false.
    2:{ symmetry. apply not_true_iff_false. intros Hex.
        apply existsb_exists in Hex as (n & Hin & Hn).
        destruct (map_find vals n) eqn:E; [discriminate|]. exact (Hknown n Hin E). }
    set (g := fun i => if (0 <=? i) && (i <? Z.of_nat (List.length (points t)))
                       then claim_sq_distance vals t i else point_distance vals t i).
    assert (Hg : forall i, point_distance vals t i = g i).
    { intros i. unfold g.
      destruct ((0 <=? i) && (i <? Z.of_nat (List.length (points t)))) eqn:E; [|reflexivity].
      apply andb_true_iff in E as [E1 E2]. apply Z.leb_le in E1. apply Z.ltb_lt in E2.
      apply point_distance_claim, Hpos, nth_In. lia. }
    assert (Hgc : forall i, start <= i <= end_ -> g i = claim_sq_distance vals t i).
    { intros i Hi. unfold g.
      replace ((0 <=? i) && (i <? Z.of_nat (List.length (points t)))) with true; [reflexivity|].
      symmetry. apply andb_true_iff. split; [apply Z.leb_le | apply Z.ltb_lt]; lia. }
    destruct (closest_loop_from_start g vals t Hg start end_ Hr) as (H1 & H2 & H3).
    eexists. split; [reflexivity|].
    repeat split; try lia.
    + intros j Hj. rewrite <- !Hgc by lia. apply H2; lia.
    + intros j Hj. rewrite <- !Hgc by lia. apply H3; lia.
Qed.

(** Witnesses: the two theorems above applied at concrete inputs. *)
Lemma isTrajectoryValid_invalid_range_true_witness :
  (clamp_end wit_traj 10 < 5) /\
  (isTrajectoryValid unit "base"%string (fun t _ _ ec => (Some t, ec))
     (fun _ _ _ _ ec => (false, ec)) wit_traj tt 5 10 SUCCESS = (true, INVALID_INDEX)).
Proof.
  split; [vm_compute; reflexivity|].
  apply (isTrajectoryValid_invalid_range_true unit "base"%string
           (fun t _ _ ec => (Some t, ec)) (fun _ _ _ _ ec => (false, ec))
           wit_vals wit_traj tt 5 10 SUCCESS).
  vm_compute; reflexivity.
Defined.

Lemma closestStateOnTrajectoryAux_spec_witness :
  closestStateOnTrajectoryAux wit_vals wit_traj 0 3 SUCCESS = (1, SUCCESS) /\
  exists r,
    closestStateOnTrajectoryAux wit_vals wit_traj 0 3 SUCCESS = (r, SUCCESS) /\
    0 <= r <= 3 /\
    (forall j, 0 <= j <= 3 ->
       claim_sq_distance wit_vals wit_traj r <= claim_sq_distance wit_vals wit_traj j) /\
    (forall j, 0 <= j < r ->
       claim_sq_distance wit_vals wit_traj r < claim_sq_distance wit_vals wit_traj j).
Proof.
  split; [vm_compute; reflexivity|].
  apply (proj2 (closestStateOnTrajectoryAux_spec wit_vals wit_traj 0 3 SUCCESS)).
  - intros n [<-|[<-|[]]]; discriminate.
  - lia.
  - simpl; lia.
  - intros p [<-|[<-|[<-|[<-|[]]]]]; simpl; lia.
Defined.

End PlanningMonitorProofs.

(* ================================================================= *)
(** ** Proofs: distance field                                          *)
(* ================================================================= *)

Module DistanceFieldProofs.
Import Geometry DistanceField Examples.

Lemma dist2_nonneg a b : 0 <= dist2 a b.
Proof.
  destruct a as [[ax ay] az], b as [[bx by_] bz]; unfold dist2, vsub; simpl.
  pose proof (Z.square_nonneg (ax - bx)); pose proof (Z.square_nonneg (ay - by_));
  pose proof (Z.square_nonneg (az - bz)); lia.
Qed.

Lemma dist2_refl a : dist2 a a = 0.
Proof.
  destruct a as [[ax ay] az]; unfold dist2; simpl; ring.
Qed.

(** A voxel that already knows an obstacle at distance 0 keeps it. *)
Lemma improve_self cfg c cand : improve cfg c (Some c) cand = Some c.
Proof.
  destruct cand as [o|]; simpl; [|reflexivity].
  destruct (within_range cfg c o); [|reflexivity].
  rewrite dist2_refl.
  replace (dist2 c o <? 0) with false by (symmetry; apply Z.ltb_ge, dist2_nonneg).
  reflexivity.
Qed.

Lemma fold_improve_self cfg c (f : Field) ns :
  fold_left (fun acc n => improve cfg c acc (f n)) ns (Some c) = Some c.
Proof.
  induction ns as [|n ns IH]; simpl; [reflexivity|].
  rewrite improve_self. exact IH.
Qed.

Lemma fold_improve_within (P : cell -> Prop) cfg c (f : Field) ns cur :
  field_within P f -> (forall o, cur = Some o -> P o) ->
  forall o, fold_left (fun acc n => improve cfg c acc (f n)) ns cur = Some o -> P o.
Proof.
  intros Hf. revert cur; induction ns as [|n ns IH]; intros cur Hcur; simpl; [exact Hcur|].
  apply IH. intros o. unfold improve.
  destruct (f n) as [o'|] eqn:E; [|apply Hcur].
  destruct (within_range cfg c o'); [|apply Hcur].
  destruct cur as [a|]; [|intros [= <-]; exact (Hf _ _ E)].
  destruct (dist2 c o' <? dist2 c a); [intros [= <-]; exact (Hf _ _ E)|apply Hcur].
Qed.

Lemma propagate_step_within (P : cell -> Prop) cfg f :
  field_within P f -> field_within P (propagate_step cfg f).
Proof.
  intros Hf c o. unfold propagate_step.
  destruct (isCellValid cfg c); [|discriminate].
  apply fold_improve_within; [exact Hf|]. intros o' E. exact (Hf _ _ E).
Qed.

Lemma propagate_within (P : cell -> Prop) cfg k : forall f,
  field_within P f -> field_within P (propagate cfg f k).
Proof.
  induction k as [|k IH]; intros f Hf; simpl; [exact Hf|].
  apply IH, propagate_step_within, Hf.
Qed.

Lemma point_eqb_eq a b : point_eqb a b = true <-> a = b.
Proof.
  destruct a as [[ax ay] az], b as [[bx by_] bz]; unfold point_eqb.
  rewrite !andb_true_iff, !Z.eqb_eq. split.
  - intros [[-> ->] ->]; reflexivity.
  - intros [= -> -> ->]; auto.
Qed.

(** The field only ever records voxels of the obstacle set. *)
Lemma build_records_obstacles cfg obstacles :
  field_within (fun o => In o obstacles) (df_closest (build cfg obstacles)).
Proof.
  apply propagate_within. intros c o. unfold init_field.
  destruct (isCellValid cfg c && existsb (point_eqb c) obstacles) eqn:E; [|discriminate].
  intros [= <-]. apply andb_true_iff in E as [_ E].
  apply existsb_exists in E as (x & Hx & Hx'). apply point_eqb_eq in Hx'. subst; exact Hx.
Qed.

Lemma propagate_keeps_obstacle cfg c k : forall f,
  isCellValid cfg c = true -> f c = Some c -> propagate cfg f k c = Some c.
Proof.
  induction k as [|k IH]; intros f Hv Hc; simpl; [exact Hc|].
  apply IH; [exact Hv|]. unfold propagate_step. rewrite Hv, Hc.
  apply fold_improve_self.
Qed.

(** An occupied voxel inside the grid records itself. *)
Lemma build_occupied cfg obstacles c :
  In c obstacles -> isCellValid cfg c = true ->
  df_closest (build cfg obstacles) c = Some c.
Proof.
  intros Hin Hv. apply propagate_keeps_obstacle; [exact Hv|].
  unfold init_field. rewrite Hv. simpl.
  replace (existsb (point_eqb c) obstacles) with true; [reflexivity|].
  symmetry. apply existsb_exists. exists c. split; [exact Hin|]. apply point_eqb_eq; reflexivity.
Qed.

Lemma worldToGrid_gridToWorld cfg c :
  0 < resolution cfg -> worldToGrid cfg (gridToWorld cfg c) = c.
Proof.
  intros Hr. destruct c as [[cx cy] cz]. unfold worldToGrid, gridToWorld.
  assert (Hh : forall x o, (o + resolution cfg * x + resolution cfg / 2 - o) / resolution cfg = x).
  { intros x o.
    replace (o + resolution cfg * x + resolution cfg / 2 - o)
      with (x * resolution cfg + resolution cfg / 2) by ring.
    rewrite Z.div_add_l by lia.
    rewrite (Z.div_small (resolution cfg / 2)); [lia|].
    split; [apply Z.div_pos; lia | apply Z.div_lt; lia]. }
  rewrite !Hh. reflexivity.
Qed.

(** ** C3 *)
(** A lookup at the center of an occupied voxel of the grid returns a
    distance within [tolerance] of 0; a lookup at a point whose voxel lies
    farther than [max_distance] from every obstacle voxel returns exactly
    [max_distance]. *)
Theorem lookup_occupied_zero_far_max cfg obstacles :
  0 < resolution cfg -> 0 <= tolerance cfg ->
  (forall c, In c obstacles -> isCellValid cfg c = true ->
     Z.abs (fst (lookup (build cfg obstacles) (gridToWorld cfg c)) - 0) <= tolerance cfg) /\
  (forall p, (forall o, In o obstacles ->
                max_distance cfg * max_distance cfg < world_dist2 cfg (worldToGrid cfg p) o) ->
     fst (lookup (build cfg obstacles) p) = max_distance cfg).
Proof.
  intros Hr Ht. split.
  - intros c Hin Hv. unfold lookup. simpl df_config.
    rewrite worldToGrid_gridToWorld by exact Hr. rewrite Hv.
    rewrite build_occupied by assumption.
    unfold world_dist2. rewrite dist2_refl, Z.mul_0_r.
    replace (0 <=? max_distance cfg * max_distance cfg) with true
      by (symmetry; apply Z.leb_le; nia).
    simpl. lia.
  - intros p Hfar. unfold lookup. simpl df_config.
    destruct (isCellValid cfg (worldToGrid cfg p)); [|reflexivity].
    destruct (df_closest (build cfg obstacles) (worldToGrid cfg p)) as [o|] eqn:E; [|reflexivity].
    pose proof (build_records_obstacles cfg obstacles _ _ E) as Ho.
    specialize (Hfar o Ho).
    replace (world_dist2 cfg (worldToGrid cfg p) o <=? max_distance cfg * max_distance cfg)
      with false by (symmetry; apply Z.leb_gt; exact Hfar).
    reflexivity.
Qed.

(** ** C8 *)
(** A lookup at a point outside the grid returns the [max_distance]
    sentinel with a zero gradient. *)
Theorem lookup_out_of_bounds df p :
  isCellValid (df_config df) (worldToGrid (df_config df) p) = false ->
  lookup df p = (max_distance (df_config df), zero_vec).
Proof.
  intros H. unfold lookup. rewrite H. reflexivity.
Qed.

(** Witnesses. *)
Lemma lookup_occupied_zero_far_max_witness :
  fst (lookup (build wit_cfg [(1, 1, 1)]) (gridToWorld wit_cfg (1, 1, 1))) = 0 /\
  Z.abs (fst (lookup (build wit_cfg [(1, 1, 1)]) (gridToWorld wit_cfg (1, 1, 1))) - 0)
    <= tolerance wit_cfg /\
  fst (lookup (build wit_cfg [(1, 1, 1)]) (45, 45, 45)) = 20 /\
  fst (lookup (build wit_cfg [(1, 1, 1)]) (45, 45, 45)) = max_distance wit_cfg.
Proof.
  split; [vm_compute; reflexivity|].
  split.
  { apply (proj1 (lookup_occupied_zero_far_max wit_cfg [(1, 1, 1)]
                    ltac:(vm_compute; reflexivity) ltac:(vm_compute; discriminate))).
    - left; reflexivity.
    - vm_compute; reflexivity. }
  split; [vm_compute; reflexivity|].
  apply (proj2 (lookup_occupied_zero_far_max wit_cfg [(1, 1, 1)]
                  ltac:(vm_compute; reflexivity) ltac:(vm_compute; discriminate))).
  intros o [<-|[]]. vm_compute. reflexivity.
Defined.

Lemma lookup_out_of_bounds_witness :
  lookup (build wit_cfg [(1, 1, 1)]) (-5, 0, 0) = (20, zero_vec).
Proof.
  apply (lookup_out_of_bounds (build wit_cfg [(1, 1, 1)]) (-5, 0, 0)).
  vm_compute. reflexivity.
Defined.

End DistanceFieldProofs.

(* ================================================================= *)
(** ** Proofs: evaluator                                               *)
(* ================================================================= *)

Module EvaluatorProofs.
Import Geometry DistanceField Evaluator.

(** The pair loop reports a hit whether or not it stops at the first one. *)
Lemma intra_scan_found ents m stop_at_first pairs : forall flags found,
  fst (intra_scan ents m stop_at_first pairs flags found) =
  found || existsb (intra_pair_hit ents m) pairs.
Proof.
  induction pairs as [|[i j] pairs IH]; intros flags found; cbn [intra_scan existsb].
  - rewrite orb_false_r; reflexivity.
  - destruct (intra_pair_hit ents m (i, j)).
    + destruct stop_at_first; [destruct found; reflexivity|].
      rewrite IH. destruct found; reflexivity.
    + rewrite IH. reflexivity.
Qed.

Lemma env_scan_found df ex stop_at_first ents : forall i flags found,
  fst (env_scan df ex stop_at_first ents i flags found) =
  found || existsb (env_entity_hit df ex) (combine (seq i (List.length ents)) ents).
Proof.
  induction ents as [|e ents IH]; intros i flags found; simpl.
  - rewrite orb_false_r; reflexivity.
  - unfold env_entity_hit at 1. simpl fst; simpl snd.
    destruct (negb (nth i ex false) && environment_hit df e).
    + destruct stop_at_first; [destruct found; reflexivity|].
      rewrite IH. destruct found; reflexivity.
    + rewrite IH. reflexivity.
Qed.

Lemma isStateInCollision_disjunction df ents m ex :
  isStateInCollision df ents m ex =
  isIntraGroupCollision ents m || isEnvironmentCollision df ents ex.
Proof.
  unfold isStateInCollision, isIntraGroupCollision, isEnvironmentCollision,
    getIntraGroupCollisions, getEnvironmentCollisions.
  rewrite !intra_scan_found, !env_scan_found. simpl.
  destruct (existsb (intra_pair_hit ents m) _); reflexivity.
Qed.

Lemma ltb_shift a b r : (a - r <? b - r) = (a <? b).
Proof.
  destruct (Z.ltb_spec a b), (Z.ltb_spec (a - r) (b - r)); lia.
Qed.

(** Shifting every candidate by the same amount shifts the arg-min. *)
Lemma argmin_shift r rest : forall first : candidate,
  argmin (fst first - r, snd first) (map (fun c => (fst c - r, snd c)) rest) =
  (fst (argmin first rest) - r, snd (argmin first rest)).
Proof.
  induction rest as [|c rest IH]; intros first; [reflexivity|].
  unfold argmin in *. simpl. rewrite ltb_shift.
  destruct (fst c <? fst first); apply IH.
Qed.

Lemma sphere_proximity_subtract df ents m ex i s :
  sphere_proximity df ents m ex true i s =
  (fst (sphere_proximity df ents m ex false i s) - radius s,
   snd (sphere_proximity df ents m ex false i s)).
Proof.
  unfold sphere_proximity. cbv beta iota zeta.
  rewrite (map_ext (fun c : candidate => (fst c, snd c)) (fun c => c))
    by (intros [? ?]; reflexivity).
  rewrite map_id, argmin_shift. reflexivity.
Qed.

Lemma closest_distances_nth df ents m ex b i :
  nth i (snd (fst (getStateGradients df ents m ex b))) [] =
  map (fun s => fst (sphere_proximity df ents m ex b i s)) (nth i ents []).
Proof.
  unfold getStateGradients. simpl.
  destruct (Nat.lt_ge_cases i (List.length ents)) as [Hi|Hi].
  - rewrite map_map.
    rewrite (nth_indep _ [] (map fst (map (sphere_proximity df ents m ex b 0) (nth 0 ents []))))
      by (rewrite length_map, length_seq; exact Hi).
    rewrite (map_nth (fun x => map fst (map (sphere_proximity df ents m ex b x) (nth x ents [])))).
    rewrite seq_nth by exact Hi. simpl. rewrite map_map. reflexivity.
  - rewrite !nth_overflow; [reflexivity | |].
    + exact Hi.
    + rewrite !length_map, length_seq. exact Hi.
Qed.

End EvaluatorProofs.

(* ================================================================= *)
(** ** Proofs: group query session                                     *)
(* ================================================================= *)

Module SessionProofs.
Import Geometry DistanceField Session Examples.

(** ** C1 *)
(** In a configured session, [isStateInCollision] answers the disjunction
    of [isIntraGroupCollision] and [isEnvironmentCollision]. *)
Theorem isStateInCollision_intra_or_environment s :
  phase s = Configured ->
  isStateInCollision s = Ok (isIntraGroupCollision s || isEnvironmentCollision s) s.
Proof.
  intros H. unfold isStateInCollision. rewrite H.
  rewrite EvaluatorProofs.isStateInCollision_disjunction. reflexivity.
Qed.

(** ** C2 *)
(** In a configured session, the distance [getStateGradients] reports for
    each sphere with [subtract_radii = true] is the one it reports with
    [subtract_radii = false] minus the sphere's radius. *)
Theorem getStateGradients_subtract_radii s :
  phase s = Configured ->
  exists l0 cd0 g0 l1 cd1 g1,
    getStateGradients false s = Ok (l0, cd0, g0) s /\
    getStateGradients true s = Ok (l1, cd1, g1) s /\
    forall i k sp,
      nth_error (nth i (current_entities (current s)) []) k = Some sp ->
      exists d, nth_error (nth i cd0 []) k = Some d /\
                nth_error (nth i cd1 []) k = Some (d - radius sp).
Proof.
  intros H. unfold getStateGradients. rewrite H.
  set (ents := current_entities (current s)).
  set (df := distance_field s).
  set (m := current_intra_group_collision_links (current s)).
  set (ex := current_environment_excludes (current s)).
  destruct (Evaluator.getStateGradients df ents m ex false) as [[l0 cd0] g0] eqn:E0.
  destruct (Evaluator.getStateGradients df ents m ex true) as [[l1 cd1] g1] eqn:E1.
  exists l0, cd0, g0, l1, cd1, g1. split; [reflexivity|]. split; [reflexivity|].
  intros i k sp Hsp.
  pose proof (EvaluatorProofs.closest_distances_nth df ents m ex false i) as N0.
  pose proof (EvaluatorProofs.closest_distances_nth df ents m ex true i) as N1.
  rewrite E0 in N0. rewrite E1 in N1. simpl in N0, N1.
  rewrite N0, N1, !nth_error_map, Hsp. simpl.
  eexists. split; [reflexivity|].
  rewrite EvaluatorProofs.sphere_proximity_subtract. reflexivity.
Qed.

(** ** C4 *)
(** While the session is Idle, [setCurrentGroupState], [isStateInCollision],
    [getStateCollisions] and [getStateGradients] fail with a
    SessionStateError carrying no result and leave the engine unchanged. *)
Theorem idle_calls_fail s ks subtract_radii :
  phase s = Idle ->
  setCurrentGroupState ks s = Err SessionStateError s /\
  isStateInCollision s = Err SessionStateError s /\
  getStateCollisions s = Err SessionStateError s /\
  getStateGradients subtract_radii s = Err SessionStateError s.
Proof.
  intros H. unfold setCurrentGroupState, isStateInCollision, getStateCollisions,
    getStateGradients. rewrite H. repeat split.
Qed.

(** A successful setup keeps the topology and installs the caches computed
    from the resolved group. *)
Lemma setup_ok t g ks s s' :
  setupForGroupQueries t g ks s = Ok tt s' ->
  topology s' = topology s /\ field_config s' = field_config s /\
  phase s' = Configured /\
  exists r, getGroupLinkAndAttachedBodyNames (topology s) g = Some r /\
            current s' = group_current (topology s) g r ks.
Proof.
  unfold setupForGroupQueries, acquire.
  destruct (lock_owner s) as [o|].
  - destruct (Nat.eqb t o); [|discriminate].
    simpl. destruct (getGroupLinkAndAttachedBodyNames (topology s) g) as [r|]; [|discriminate].
    intros [= <-]. repeat split. exists r. split; reflexivity.
  - simpl. destruct (getGroupLinkAndAttachedBodyNames (topology s) g) as [r|]; [|discriminate].
    intros [= <-]. repeat split. exists r. split; reflexivity.
Qed.

Lemma setup_from_free t g ks s :
  lock_owner s = None ->
  getGroupLinkAndAttachedBodyNames (topology s) g <> None ->
  exists s', setupForGroupQueries t g ks s = Ok tt s' /\
             topology s' = topology s /\ lock_owner s' = Some t /\ lock_count s' = 1%nat.
Proof.
  intros Hl Hg. unfold setupForGroupQueries, acquire. rewrite Hl. simpl.
  destruct (getGroupLinkAndAttachedBodyNames (topology s) g) as [r|]; [|congruence].
  eexists. split; [reflexivity|]. repeat split.
Qed.

Lemma revert_after_single_lock t s :
  lock_owner s = Some t -> lock_count s = 1%nat ->
  let s' := revertAfterGroupQueries t s in
  topology s' = topology s /\ phase s' = Idle /\ current s' = empty_current /\
  lock_owner s' = None /\ lock_count s' = 0%nat.
Proof.
  intros Ho Hc s'. subst s'. unfold revertAfterGroupQueries, release. simpl.
  rewrite Ho, Nat.eqb_refl, Hc. simpl. repeat split.
Qed.

(** ** C5 *)
(** Starting from an Idle engine, [n] rounds of [setupForGroupQueries]
    immediately followed by [revertAfterGroupQueries] by one thread never
    block and end Idle, with empty caches and the lock released. *)
Theorem setup_revert_rounds_idle t g ks n : forall s,
  phase s = Idle -> current s = empty_current ->
  lock_owner s = None -> lock_count s = 0%nat ->
  getGroupLinkAndAttachedBodyNames (topology s) g <> None ->
  exists s', setup_revert_rounds t g ks n s = Some s' /\
             phase s' = Idle /\ current s' = empty_current /\
             lock_owner s' = None /\ lock_count s' = 0%nat /\
             topology s' = topology s.
Proof.
  induction n as [|n IH]; intros s Hp Hc Ho Hn Hg.
  - exists s. repeat split; assumption.
  - destruct (setup_from_free t g ks s Ho Hg) as (s1 & Hs1 & Ht1 & Ho1 & Hc1).
    simpl. rewrite Hs1.
    destruct (revert_after_single_lock t s1 Ho1 Hc1) as (Ht2 & Hp2 & Hc2 & Ho2 & Hn2).
    destruct (IH (revertAfterGroupQueries t s1) Hp2 Hc2 Ho2 Hn2)
      as (s' & Hr & Hp' & Hc' & Ho' & Hn' & Ht').
    { rewrite Ht2, Ht1. exact Hg. }
    exists s'. repeat split; try assumption. congruence.
Qed.

(** ** C6 *)
(** After a successful setup, the current link names, link indices and link
    body decompositions have the same length. *)
Theorem setup_link_sequences_same_length t g ks s s' :
  setupForGroupQueries t g ks s = Ok tt s' ->
  List.length (current_link_names (current s')) =
    List.length (current_link_indices (current s')) /\
  List.length (current_link_indices (current s')) =
    List.length (current_link_body_decompositions (current s')).
Proof.
  intros H. destruct (setup_ok t g ks s s' H) as (_ & _ & _ & r & _ & Hc).
  rewrite Hc. destruct r as [[[ln li] an] ai]. simpl.
  rewrite !length_map. split; reflexivity.
Qed.

Lemma release_keeps_topology t s : topology (release t s) = topology s.
Proof.
  unfold release. destruct (lock_owner s) as [o|]; [|reflexivity].
  destruct (Nat.eqb t o); [|reflexivity].
  destruct (Nat.leb (lock_count s) 1); reflexivity.
Qed.

Lemma step_keeps_topology s op :
  is_event op = false -> topology (step s op) = topology s.
Proof.
  destruct op as [t g ks|t|ks| | |b|ev]; simpl; intros He; try discriminate.
  - unfold setupForGroupQueries.
    destruct (acquire t s) as [s1|] eqn:Ha; [|reflexivity].
    assert (Hs1 : topology s1 = topology s).
    { unfold acquire in Ha. destruct (lock_owner s) as [o|].
      - destruct (Nat.eqb t o); [|discriminate]. injection Ha as <-. reflexivity.
      - injection Ha as <-. reflexivity. }
    destruct (getGroupLinkAndAttachedBodyNames (topology s1) g); simpl;
      [exact Hs1|rewrite release_keeps_topology; exact Hs1].
  - unfold revertAfterGroupQueries. rewrite release_keeps_topology. reflexivity.
  - unfold setCurrentGroupState. destruct (phase s); reflexivity.
  - unfold isStateInCollision. destruct (phase s); reflexivity.
  - unfold getStateCollisions. destruct (phase s); reflexivity.
  - unfold getStateGradients. destruct (phase s); reflexivity.
Qed.

Lemma run_keeps_topology tr : forall s,
  forallb (fun op => negb (is_event op)) tr = true ->
  topology (run s tr) = topology s.
Proof.
  induction tr as [|op tr IH]; intros s H; [reflexivity|].
  simpl in H. apply andb_true_iff in H as [H1 H2].
  unfold run. simpl. fold (run (step s op) tr).
  rewrite IH by exact H2. apply step_keeps_topology. destruct (is_event op); auto.
Qed.

(** ** C7 *)
(** Two setups of the same group, separated only by calls that are not
    object attach/detach or static-object events, resolve the same link
    and attached-body names and indices, in the same order. *)
Theorem setup_resolution_deterministic t t' g ks ks' s s1 tr s2 :
  setupForGroupQueries t g ks s = Ok tt s1 ->
  forallb (fun op => negb (is_event op)) tr = true ->
  setupForGroupQueries t' g ks' (run s1 tr) = Ok tt s2 ->
  current_link_names (current s2) = current_link_names (current s1) /\
  current_link_indices (current s2) = current_link_indices (current s1) /\
  current_attached_body_names (current s2) = current_attached_body_names (current s1) /\
  current_attached_body_indices (current s2) = current_attached_body_indices (current s1).
Proof.
  intros H1 Htr H2.
  destruct (setup_ok t g ks s s1 H1) as (Ht1 & _ & _ & r1 & Hr1 & Hc1).
  destruct (setup_ok t' g ks' (run s1 tr) s2 H2) as (_ & _ & _ & r2 & Hr2 & Hc2).
  rewrite run_keeps_topology, Ht1 in Hr2 by exact Htr.
  rewrite run_keeps_topology, Ht1 in Hc2 by exact Htr.
  rewrite Hr1 in Hr2. injection Hr2 as <-.
  rewrite Hc1, Hc2. destruct r1 as [[[ln li] an] ai].
  repeat split; reflexivity.
Qed.

(** Witnesses. *)
Lemma isStateInCollision_intra_or_environment_witness :
  isStateInCollision wit_configured = Ok true wit_configured /\
  isStateInCollision wit_configured =
    Ok (isIntraGroupCollision wit_configured || isEnvironmentCollision wit_configured)
       wit_configured.
Proof.
  split; [vm_compute; reflexivity|].
  apply isStateInCollision_intra_or_environment. vm_compute. reflexivity.
Defined.

Lemma getStateGradients_subtract_radii_witness :
  exists l0 cd0 g0 l1 cd1 g1,
    getStateGradients false wit_configured = Ok (l0, cd0, g0) wit_configured /\
    getStateGradients true wit_configured = Ok (l1, cd1, g1) wit_configured /\
    forall i k sp,
      nth_error (nth i (current_entities (current wit_configured)) []) k = Some sp ->
      exists d, nth_error (nth i cd0 []) k = Some d /\
                nth_error (nth i cd1 []) k = Some (d - radius sp).
Proof.
  apply getStateGradients_subtract_radii. vm_compute. reflexivity.
Defined.

Lemma idle_calls_fail_witness :
  setCurrentGroupState wit_state wit_engine = Err SessionStateError wit_engine /\
  isStateInCollision wit_engine = Err SessionStateError wit_engine /\
  getStateCollisions wit_engine = Err SessionStateError wit_engine /\
  getStateGradients true wit_engine = Err SessionStateError wit_engine.
Proof.
  apply idle_calls_fail. reflexivity.
Defined.

Lemma setup_revert_rounds_idle_witness :
  exists s', setup_revert_rounds 1 "arm" wit_state 3 wit_engine = Some s' /\
             phase s' = Idle /\ current s' = empty_current /\
             lock_owner s' = None /\ lock_count s' = 0%nat /\
             topology s' = topology wit_engine.
Proof.
  apply setup_revert_rounds_idle; try reflexivity.
  vm_compute. discriminate.
Defined.

Lemma setup_link_sequences_same_length_witness :
  List.length (current_link_names (current wit_configured)) = 2%nat /\
  List.length (current_link_names (current wit_configured)) =
    List.length (current_link_indices (current wit_configured)) /\
  List.length (current_link_indices (current wit_configured)) =
    List.length (current_link_body_decompositions (current wit_configured)).
Proof.
  split; [vm_compute; reflexivity|].
  apply (setup_link_sequences_same_length 1 "arm" wit_state wit_engine).
  vm_compute. reflexivity.
Defined.

Lemma setup_resolution_deterministic_witness :
  current_link_indices (current wit_resetup) = [1%nat; 2%nat] /\
  current_link_names (current wit_resetup) = current_link_names (current wit_configured) /\
  current_link_indices (current wit_resetup) = current_link_indices (current wit_configured) /\
  current_attached_body_names (current wit_resetup) =
    current_attached_body_names (current wit_configured) /\
  current_attached_body_indices (current wit_resetup) =
    current_attached_body_indices (current wit_configured).
Proof.
  split; [vm_compute; reflexivity|].
  apply (setup_resolution_deterministic 1 2 "arm" wit_state wit_second_state
           wit_engine wit_configured wit_trace wit_resetup).
  - vm_compute. reflexivity.
  - reflexivity.
  - vm_compute. reflexivity.
Defined.

End SessionProofs.

(* ================================================================= *)
(** ** Proofs: planning monitor checks, transforms and setup            *)
(* ================================================================= *)

Module PlanningMonitorChecksProofs.
Import PlanningMonitor PlanningMonitorChecks PlanningMonitorOverloads PlanningMonitorNotions.

(** *** The joint value map *)

Lemma map_set_in_keys (m : list (string * Z)) (k k' : string) (v : Z) :
  In k' (keys (map_set m k v)) <-> In k' (keys m) \/ k' = k.
Proof.
  induction m as [| [k0 v0] m IH]; simpl.
  - intuition.
  - destruct (String.eqb k k0) eqn:E; simpl.
    + apply String.eqb_eq in E; subst. intuition.
    + rewrite IH. intuition.
Qed.

Lemma map_set_nodup (m : list (string * Z)) (k : string) (v : Z) :
  NoDup (keys m) -> NoDup (keys (map_set m k v)).
Proof.
  induction m as [| [k0 v0] m IH]; simpl; intros Hn.
  - constructor; [intros [] | constructor].
  - inversion Hn as [| ? ? Hnot Hn']; subst.
    destruct (String.eqb k k0) eqn:E; simpl.
    + constructor; assumption.
    + constructor; [| now apply IH].
      rewrite map_set_in_keys. intros [H | H]; [contradiction |].
      subst. rewrite String.eqb_refl in E. discriminate.
Qed.

Lemma map_set_entry_absent (m : list (string * Z)) (k : string) (v : Z) :
  ~ In k (keys m) -> map (set_entry k v) m = m.
Proof.
  induction m as [| [k0 v0] m IH]; simpl; intros Hn; [reflexivity |].
  unfold set_entry at 1; simpl.
  destruct (String.eqb k k0) eqn:E.
  - apply String.eqb_eq in E. subst. exfalso. apply Hn. now left.
  - rewrite IH; [reflexivity | intuition].
Qed.

Lemma map_set_existing (m : list (string * Z)) (k : string) (v : Z) :
  NoDup (keys m) -> In k (keys m) -> map_set m k v = map (set_entry k v) m.
Proof.
  induction m as [| [k0 v0] m IH]; simpl; intros Hn Hin; [contradiction |].
  inversion Hn as [| ? ? Hnot Hn']; subst.
  unfold set_entry at 1; simpl.
  destruct (String.eqb k k0) eqn:E.
  - apply String.eqb_eq in E. subst. now rewrite map_set_entry_absent.
  - destruct Hin as [Hin | Hin].
    + subst. rewrite String.eqb_refl in E. discriminate.
    + now rewrite IH.
Qed.

Lemma keys_map_set_entry (m : list (string * Z)) (k : string) (v : Z) :
  keys (map (set_entry k v) m) = keys m.
Proof. unfold keys. rewrite map_map. reflexivity. Qed.

Lemma set_values_pointwise (ps m : list (string * Z)) :
  NoDup (keys m) -> (forall k, In k (map fst ps) -> In k (keys m)) ->
  fold_left (fun m e => map_set m (fst e) (snd e)) ps m
  = map (fun e => (fst e, lastval ps (fst e) (snd e))) m.
Proof.
  revert m. induction ps as [| [k v] ps IH]; intros m Hn Hk; simpl.
  - unfold lastval. simpl. induction m as [| [k0 v0] m IHm]; simpl; [reflexivity |].
    f_equal. apply IHm. inversion Hn; assumption. intros k [].
  - rewrite (map_set_existing m k v Hn) by (apply Hk; now left).
    rewrite IH.
    + rewrite map_map. apply map_ext. intros [k0 v0]. unfold set_entry, lastval. simpl.
      rewrite (String.eqb_sym k k0). reflexivity.
    + now rewrite keys_map_set_entry.
    + intros k' Hk'. rewrite keys_map_set_entry. apply Hk. now right.
Qed.

Lemma lastval_indep (ps : list (string * Z)) (k : string) (v v' : Z) :
  In k (map fst ps) -> lastval ps k v = lastval ps k v'.
Proof.
  unfold lastval. revert v v'.
  induction ps as [| [k0 v0] ps IH]; simpl; intros v v' Hin; [contradiction |].
  destruct (String.eqb k0 k) eqn:E; [reflexivity |].
  apply IH. destruct Hin as [Hin | Hin]; [| assumption].
  subst. rewrite String.eqb_refl in E. discriminate.
Qed.

Lemma map_same_keys (f : string -> Z -> Z) (m1 m2 : list (string * Z)) :
  keys m1 = keys m2 -> (forall k v v', In k (keys m1) -> f k v = f k v') ->
  map (fun e => (fst e, f (fst e) (snd e))) m1 = map (fun e => (fst e, f (fst e) (snd e))) m2.
Proof.
  revert m2. induction m1 as [| [k1 v1] m1 IH]; intros [| [k2 v2] m2] Hk Hf;
    simpl in *; try discriminate; [reflexivity |].
  injection Hk as -> Hk. f_equal.
  - f_equal. apply Hf. now left.
  - apply IH; [assumption |]. intros k v v' Hin. apply Hf. now right.
Qed.

Lemma init_joint_map_keys_gen (names : list string) (m0 : list (string * Z)) :
  NoDup (keys m0) ->
  NoDup (keys (fold_left (fun m n => map_set m n 0) names m0))
  /\ (forall k, In k (keys (fold_left (fun m n => map_set m n 0) names m0))
                <-> In k (keys m0) \/ In k names).
Proof.
  revert m0. induction names as [| n names IH]; intros m0 Hn; simpl.
  - split; [assumption | intuition].
  - destruct (IH (map_set m0 n 0) (map_set_nodup m0 n 0 Hn)) as [H1 H2].
    split; [assumption |]. intros k. rewrite H2, map_set_in_keys. intuition.
Qed.

Lemma init_joint_map_keys (names : list string) :
  NoDup (keys (init_joint_map names))
  /\ (forall k, In k (keys (init_joint_map names)) <-> In k names).
Proof.
  destruct (init_joint_map_keys_gen names [] (NoDup_nil _)) as [H1 H2].
  split; [exact H1 |]. intros k. unfold init_joint_map. rewrite H2. simpl. intuition.
Qed.

Lemma keys_combine (names : list string) (pos : list Z) :
  List.length pos = List.length names -> map fst (combine names pos) = names.
Proof.
  revert pos. induction names as [| n names IH]; intros [| p pos] Hl; simpl in *;
    try discriminate; [reflexivity |].
  f_equal. apply IH. lia.
Qed.

(** Setting every joint of the path forgets the values set before. *)
Lemma set_point_values_indep (m : list (string * Z)) (names : list string) (pos : list Z) :
  keys m = keys (init_joint_map names) -> List.length pos = List.length names ->
  set_point_values m names pos = set_point_values (init_joint_map names) names pos.
Proof.
  intros Hk Hl. destruct (init_joint_map_keys names) as [Hn Hin].
  assert (Hc : forall k, In k (map fst (combine names pos)) -> In k (keys (init_joint_map names))).
  { intros k. rewrite keys_combine by assumption. apply Hin. }
  unfold set_point_values.
  rewrite (set_values_pointwise _ m) by (rewrite Hk; assumption).
  rewrite (set_values_pointwise _ (init_joint_map names)) by assumption.
  apply map_same_keys; [assumption |].
  intros k v v' Hk'. apply lastval_indep. rewrite keys_combine by assumption.
  apply Hin. rewrite <- Hk. assumption.
Qed.

Lemma set_point_values_keys (m : list (string * Z)) (names : list string) (pos : list Z) :
  keys m = keys (init_joint_map names) -> List.length pos = List.length names ->
  keys (set_point_values m names pos) = keys (init_joint_map names).
Proof.
  intros Hk Hl. destruct (init_joint_map_keys names) as [Hn Hin].
  unfold set_point_values.
  rewrite (set_values_pointwise _ m).
  - unfold keys in *. rewrite map_map. simpl. assumption.
  - rewrite Hk. assumption.
  - intros k. rewrite keys_combine by assumption. rewrite Hk. apply Hin.
Qed.

(** *** The point loop of [isTrajectoryValidAux] *)

Section Loop.
Variable inCollision : list (string * Z) -> bool.
Variable areJointsWithinBounds : list (string * Z) -> list string -> bool.
Variable checkPathConstraints : list (string * Z) -> bool.
Variables (t : JointTrajectory) (base : list (string * Z)) (test : TestFlags).

Local Abbreviation step := (point_step inCollision areJointsWithinBounds checkPathConstraints t base test).
Local Abbreviation loop := (validity_loop inCollision areJointsWithinBounds checkPathConstraints t base test).
Local Abbreviation ok := (point_ok inCollision areJointsWithinBounds checkPathConstraints t base test).
Local Abbreviation pstate := (point_state t base).
Local Abbreviation names := (joint_names t).

Lemma step_spec (i : Z) (st : LoopState) :
  keys (joint_value_map st) = keys (init_joint_map names) ->
  (valid st = false -> valid_all st = false) ->
  keys (joint_value_map (fst (step i st))) = keys (init_joint_map names)
  /\ (valid (fst (step i st)) = false -> valid_all (fst (step i st)) = false)
  /\ valid_all (fst (step i st)) = valid_all st && ok i
  /\ (snd (step i st) = true -> valid_all (fst (step i st)) = false)
  /\ (valid_all (fst (step i st)) = true -> kstate (fst (step i st)) = pstate i).
Proof.
  intros Hk Hinv.
  unfold point_step, point_ok, point_state, point_positions.
  set (pos := positions (nth (Z.to_nat i) (points t) {| positions := [] |})).
  destruct (Nat.eqb (List.length pos) (List.length names)) eqn:El; simpl.
  2:{ unfold fail_point; simpl. repeat split; try discriminate; auto.
      rewrite andb_false_r. reflexivity. }
  apply Nat.eqb_eq in El.
  rewrite (set_point_values_indep (joint_value_map st)) by assumption.
  assert (Hk' := set_point_values_keys (init_joint_map names) names pos eq_refl El).
  set (s := set_state (set_point_values (init_joint_map names) names pos) base).
  destruct (JOINT_LIMITS_TEST test), (areJointsWithinBounds s names),
    (COLLISION_TEST test), (inCollision s), (PATH_CONSTRAINTS_TEST test),
    (checkPathConstraints s), (valid st), (valid_all st), (CHECK_FULL_TRAJECTORY test);
    unfold fail_point; simpl; repeat split; auto; try discriminate;
    specialize (Hinv eq_refl); discriminate.
Qed.

Lemma loop_spec (fuel : nat) (i : Z) (st : LoopState) :
  keys (joint_value_map st) = keys (init_joint_map names) ->
  (valid st = false -> valid_all st = false) ->
  keys (joint_value_map (loop i fuel st)) = keys (init_joint_map names)
  /\ (valid (loop i fuel st) = false -> valid_all (loop i fuel st) = false)
  /\ (valid_all (loop i fuel st) = true <->
      valid_all st = true /\ (forall k, (k < fuel)%nat -> ok (i + Z.of_nat k) = true))
  /\ (valid_all (loop i fuel st) = true ->
      kstate (loop i fuel st) = match fuel with
                                | O => kstate st
                                | S _ => pstate (i + Z.of_nat fuel - 1)
                                end).
Proof.
  revert i st. induction fuel as [| f IH]; intros i st Hk Hinv.
  - simpl. split; [assumption |]. split; [assumption |]. split; [| reflexivity].
    split; [intros H; split; [exact H | intros; lia] | intros [H _]; exact H].
  - destruct (step_spec i st Hk Hinv) as (Hk1 & Hinv1 & Hva1 & Hbrk & Hks1).
    simpl. destruct (step i st) as [st' brk] eqn:Hs. simpl in *.
    destruct brk.
    + specialize (Hbrk eq_refl). rewrite Hbrk.
      repeat split; auto; try discriminate.
      intros [Hv Hall]. rewrite Hv in Hva1. simpl in Hva1.
      specialize (Hall O ltac:(lia)). rewrite Z.add_0_r in Hall. congruence.
    + destruct (IH (i + 1) st' Hk1 Hinv1) as (Hk2 & Hinv2 & Hiff & Hks2).
      split; [assumption |]. split; [assumption |]. split; [split |].
      * intros Hv. apply Hiff in Hv as [Hv Hall]. rewrite Hv in Hva1.
        symmetry in Hva1. apply andb_prop in Hva1 as [Hv0 Hok0].
        split; [assumption |]. intros k Hk'.
        destruct k as [| k]; [rewrite Z.add_0_r; assumption |].
        specialize (Hall k ltac:(lia)).
        replace (i + Z.of_nat (S k)) with (i + 1 + Z.of_nat k) by lia. assumption.
      * intros [Hv Hall]. apply Hiff. split.
        -- rewrite Hva1, Hv. simpl. specialize (Hall O ltac:(lia)).
           rewrite Z.add_0_r in Hall. assumption.
        -- intros k Hk'. specialize (Hall (S k) ltac:(lia)).
           replace (i + 1 + Z.of_nat k) with (i + Z.of_nat (S k)) by lia. assumption.
      * intros Hv. rewrite (Hks2 Hv). destruct f as [| f].
        -- apply Hiff in Hv as [Hv _]. rewrite (Hks1 Hv). f_equal. lia.
        -- f_equal. lia.
Qed.

Lemma set_code_length (l : list ErrorCode) (i : nat) (c : ErrorCode) :
  List.length (set_code l i c) = List.length l.
Proof.
  revert i. induction l as [| x l IH]; intros [| i]; simpl; auto.
Qed.

Lemma set_code_nth_other (l : list ErrorCode) (i j : nat) (c d : ErrorCode) :
  j <> i -> nth j (set_code l i c) d = nth j l d.
Proof.
  revert i j. induction l as [| x l IH]; intros [| i] [| j] Hne; simpl;
    try reflexivity; try lia; apply IH; lia.
Qed.

Lemma set_code_nth_same (l : list ErrorCode) (i : nat) (c d : ErrorCode) :
  (i < List.length l)%nat -> nth i (set_code l i c) d = c.
Proof.
  revert i. induction l as [| x l IH]; intros [| i] Hlt; simpl in *;
    try reflexivity; try lia; apply IH; lia.
Qed.

Ltac step_cases :=
  repeat match goal with
         | |- context [match ?x with _ => _ end] =>
             lazymatch x with
             | Some _ => fail
             | None => fail
             | _ => destruct x
             end
         end.

Lemma step_codes (i : Z) (st : LoopState) :
  (List.length (loop_codes (fst (step i st))) = List.length (loop_codes st))
  /\ (forall j d, j <> Z.to_nat i ->
        nth j (loop_codes (fst (step i st))) d = nth j (loop_codes st) d).
Proof.
  unfold point_step, fail_point. step_cases; simpl;
    split; intros; rewrite ?set_code_length, ?set_code_nth_other; auto.
Qed.

Lemma step_no_break (i : Z) (st : LoopState) :
  CHECK_FULL_TRAJECTORY test = true -> snd (step i st) = false.
Proof.
  intros Hc. unfold point_step. rewrite Hc. step_cases; reflexivity.
Qed.

Lemma loop_codes_length (fuel : nat) (i : Z) (st : LoopState) :
  List.length (loop_codes (loop i fuel st)) = List.length (loop_codes st).
Proof.
  revert i st. induction fuel as [| f IH]; intros i st; simpl; [reflexivity |].
  destruct (step_codes i st) as [Hl _].
  destruct (step i st) as [st' brk]. simpl in Hl.
  destruct brk; [assumption | rewrite IH; assumption].
Qed.

Lemma loop_codes_below (fuel : nat) (i : Z) (st : LoopState) (j : nat) (d : ErrorCode) :
  0 <= i -> (j < Z.to_nat i)%nat ->
  nth j (loop_codes (loop i fuel st)) d = nth j (loop_codes st) d.
Proof.
  revert i st. induction fuel as [| f IH]; intros i st Hi Hj; simpl; [reflexivity |].
  destruct (step_codes i st) as [_ Ho].
  specialize (Ho j d ltac:(lia)).
  destruct (step i st) as [st' brk]. simpl in Ho.
  destruct brk; [assumption |].
  rewrite IH by lia. assumption.
Qed.

Lemma loop_split (a b : nat) (i : Z) (st : LoopState) :
  CHECK_FULL_TRAJECTORY test = true ->
  loop i (a + b) st = loop (i + Z.of_nat a) b (loop i a st).
Proof.
  intros Hc. revert i st. induction a as [| a IH]; intros i st; simpl.
  - rewrite Z.add_0_r. reflexivity.
  - assert (Hb := step_no_break i st Hc).
    destruct (step i st) as [st' brk]. simpl in Hb. subst brk.
    rewrite IH. f_equal. lia.
Qed.

(** A point with its positions that passes the joint-limit and collision
    tests but not the path constraints gets [COLLISION_CONSTRAINTS_VIOLATED]. *)
Lemma step_path_code (i : Z) (st : LoopState) :
  keys (joint_value_map st) = keys (init_joint_map names) ->
  (Z.to_nat i < List.length (loop_codes st))%nat ->
  List.length (point_positions t i) = List.length names ->
  PATH_CONSTRAINTS_TEST test = true ->
  (JOINT_LIMITS_TEST test = true -> areJointsWithinBounds (pstate i) names = true) ->
  (COLLISION_TEST test = true -> inCollision (pstate i) = false) ->
  checkPathConstraints (pstate i) = false ->
  nth (Z.to_nat i) (loop_codes (fst (step i st))) DEFAULT_CODE = COLLISION_CONSTRAINTS_VIOLATED.
Proof.
  intros Hk Hlt Hl Hp Hjl Hco Hpath.
  unfold point_step. unfold point_state, point_positions in *.
  set (pos := positions (nth (Z.to_nat i) (points t) {| positions := [] |})) in *.
  rewrite Hl, Nat.eqb_refl. simpl.
  rewrite (set_point_values_indep (joint_value_map st)) by assumption.
  set (s := set_state (set_point_values (init_joint_map names) names pos) base) in *.
  rewrite Hp, Hpath.
  destruct (JOINT_LIMITS_TEST test); [rewrite Hjl by reflexivity |];
    (destruct (COLLISION_TEST test); [rewrite Hco by reflexivity |]);
    destruct (valid st); simpl; unfold fail_point; simpl;
    apply set_code_nth_same; assumption.
Qed.

(** A point without one position per joint clears [valid]. *)
Lemma step_malformed_valid (i : Z) (st : LoopState) :
  List.length (point_positions t i) <> List.length names ->
  valid (fst (step i st)) = false.
Proof.
  intros Hl. unfold point_step. unfold point_positions in Hl.
  apply Nat.eqb_neq in Hl. rewrite Hl. reflexivity.
Qed.

(** Without the joint-limit and collision tests, a cleared [valid] is
    reported as a collision at the next point that has its positions. *)
Lemma step_stale_valid_code (i : Z) (st : LoopState) :
  (Z.to_nat i < List.length (loop_codes st))%nat ->
  List.length (point_positions t i) = List.length names ->
  JOINT_LIMITS_TEST test = false -> COLLISION_TEST test = false ->
  valid st = false ->
  nth (Z.to_nat i) (loop_codes (fst (step i st))) DEFAULT_CODE = COLLISION_CONSTRAINTS_VIOLATED.
Proof.
  intros Hlt Hl Hjl Hco Hv. unfold point_step. unfold point_positions in Hl.
  rewrite Hl, Nat.eqb_refl, Hjl, Hco, Hv. simpl.
  apply set_code_nth_same. assumption.
Qed.

(** Without [CHECK_FULL_TRAJECTORY], a failing point ends the loop while
    every point before it passed. *)
Lemma step_break (i : Z) (st : LoopState) :
  keys (joint_value_map st) = keys (init_joint_map names) ->
  valid st = true -> valid_all st = true ->
  CHECK_FULL_TRAJECTORY test = false ->
  ok i = false -> snd (step i st) = true.
Proof.
  intros Hk Hv Hva Hc Hok.
  unfold point_step, point_ok, point_state, point_positions in *. rewrite Hc.
  set (pos := positions (nth (Z.to_nat i) (points t) {| positions := [] |})) in *.
  destruct (Nat.eqb (List.length pos) (List.length names)) eqn:El; simpl; [| reflexivity].
  apply Nat.eqb_eq in El.
  rewrite (set_point_values_indep (joint_value_map st)) by assumption.
  set (s := set_state (set_point_values (init_joint_map names) names pos) base) in *.
  rewrite Hv. simpl in Hok.
  destruct (JOINT_LIMITS_TEST test), (areJointsWithinBounds s names),
    (COLLISION_TEST test), (inCollision s), (PATH_CONSTRAINTS_TEST test),
    (checkPathConstraints s); simpl in *; try reflexivity; discriminate.
Qed.

Lemma loop_stops (fuel : nat) (i k : Z) (st : LoopState) (j : nat) (d : ErrorCode) :
  keys (joint_value_map st) = keys (init_joint_map names) ->
  valid st = true -> valid_all st = true ->
  CHECK_FULL_TRAJECTORY test = false ->
  0 <= i <= k -> k < i + Z.of_nat fuel -> ok k = false ->
  (Z.to_nat k < j)%nat ->
  nth j (loop_codes (loop i fuel st)) d = nth j (loop_codes st) d.
Proof.
  revert i st. induction fuel as [| f IH]; intros i st Hk Hv Hva Hc Hi Hkf Hok Hj;
    simpl; [reflexivity |].
  destruct (step_spec i st Hk (fun H => ltac:(congruence))) as (Hk1 & Hinv1 & Hva1 & _ & _).
  destruct (step_codes i st) as [_ Ho].
  specialize (Ho j d ltac:(lia)).
  destruct (Z.eq_dec i k) as [-> | Hne].
  - assert (Hb := step_break k st Hk Hv Hva Hc Hok).
    destruct (step k st) as [st' brk]. simpl in Hb, Ho. subst brk. exact Ho.
  - destruct (ok i) eqn:Hoki.
    + destruct (step i st) as [st' brk] eqn:Hs. simpl in *.
      rewrite Hva in Hva1. simpl in Hva1.
      destruct brk; [assumption |].
      rewrite IH; auto; try lia.
      destruct (valid st') eqn:Hv'; [reflexivity |]. specialize (Hinv1 eq_refl). congruence.
    + assert (Hb := step_break i st Hk Hv Hva Hc Hoki).
      destruct (step i st) as [st' brk]. simpl in Hb, Ho. subst brk. exact Ho.
Qed.

End Loop.

Lemma resize_codes_length (codes : list ErrorCode) (n : nat) :
  List.length (resize_codes codes n) = n.
Proof.
  unfold resize_codes. rewrite length_app, length_firstn, repeat_length. lia.
Qed.

Lemma existsb_unknown_false (known : string -> bool) (names : list string) :
  (forall n, In n names -> known n = true) ->
  existsb (fun n => negb (known n)) names = false.
Proof.
  intros H. apply not_true_iff_false. intros Hex.
  apply existsb_exists in Hex as [n [Hin Hn]].
  rewrite H in Hn by assumption. discriminate.
Qed.

(** *** [isTrajectoryValidAux] *)

Section Aux.
Variable jointKnown : string -> bool.
Variable inCollision : list (string * Z) -> bool.
Variable areJointsWithinBounds : list (string * Z) -> list string -> bool.
Variable checkPathConstraints : list (string * Z) -> bool.
Variable checkGoalConstraints : list (string * Z) -> bool.

Local Abbreviation aux := (isTrajectoryValidAux jointKnown inCollision areJointsWithinBounds
                             checkPathConstraints checkGoalConstraints).
Local Abbreviation ok := (point_ok inCollision areJointsWithinBounds checkPathConstraints).
Local Abbreviation loop := (validity_loop inCollision areJointsWithinBounds checkPathConstraints).

Lemma aux_loop (t : JointTrajectory) (rs : RobotStateMsg) (start end_ : Z) (test : TestFlags)
    (verbose env_verbose : bool) (ec : ErrorCode) (codes : list ErrorCode) :
  (forall n, In n (joint_names t) -> jointKnown n = true) ->
  let L := loop t (robot_state_values rs) test start (Z.to_nat (end_ - start + 1))
             {| valid := true; valid_all := true; loop_error := ec;
                loop_codes := resize_codes codes (List.length (points t));
                joint_value_map := init_joint_map (joint_names t);
                kstate := robot_state_values rs |} in
  aux t rs start end_ test verbose env_verbose ec codes
  = if valid_all L && GOAL_CONSTRAINTS_TEST test then
      {| aux_valid := checkGoalConstraints (kstate L) && valid_all L;
         aux_error := if checkGoalConstraints (kstate L) then loop_error L
                      else GOAL_CONSTRAINTS_VIOLATED;
         aux_codes := loop_codes L; aux_verbose := env_verbose |}
    else {| aux_valid := valid_all L; aux_error := loop_error L;
            aux_codes := loop_codes L; aux_verbose := env_verbose |}.
Proof.
  intros Hknown L. unfold isTrajectoryValidAux.
  rewrite existsb_unknown_false by assumption. reflexivity.
Qed.

(** When every joint of the trajectory is known and [0 <= start <= end < size], [isTrajectoryValidAux] answers true exactly when every point from [start] to [end] passes the enabled per-point checks (positions of the right size, joint limits, collisions, path constraints) and, if the goal test is on, the state of the last point checked satisfies the goal constraints. *)
Theorem isTrajectoryValidAux_valid_iff (t : JointTrajectory) (rs : RobotStateMsg)
    (start end_ : Z) (test : TestFlags) (verbose env_verbose : bool)
    (ec : ErrorCode) (codes : list ErrorCode)
    (Hknown : forall n, In n (joint_names t) -> jointKnown n = true)
    (Hrange : 0 <= start <= end_) (Hend : end_ < Z.of_nat (List.length (points t))) :
  aux_valid (aux t rs start end_ test verbose env_verbose ec codes) = true
  <-> (forall i, start <= i <= end_ -> ok t (robot_state_values rs) test i = true)
      /\ (GOAL_CONSTRAINTS_TEST test = true ->
          checkGoalConstraints (point_state t (robot_state_values rs) end_) = true).
Proof.
  rewrite aux_loop by assumption.
  set (base := robot_state_values rs).
  set (st0 := {| valid := true; valid_all := true; loop_error := ec;
                 loop_codes := resize_codes codes (List.length (points t));
                 joint_value_map := init_joint_map (joint_names t); kstate := base |}).
  destruct (loop_spec inCollision areJointsWithinBounds checkPathConstraints t base test
              (Z.to_nat (end_ - start + 1)) start st0 eq_refl (fun H => ltac:(discriminate)))
    as (_ & _ & Hiff & Hks).
  set (L := loop t base test start (Z.to_nat (end_ - start + 1)) st0) in *.
  assert (Hall : (forall k, (k < Z.to_nat (end_ - start + 1))%nat ->
                            ok t base test (start + Z.of_nat k) = true)
                 <-> (forall i, start <= i <= end_ -> ok t base test i = true)).
  { split; intros H.
    - intros i Hi. replace i with (start + Z.of_nat (Z.to_nat (i - start))) by lia.
      apply H. lia.
    - intros k Hk. apply H. lia. }
  destruct (valid_all L) eqn:Hva.
  - destruct (proj1 Hiff eq_refl) as [_ Hok].
    rewrite (Hks eq_refl).
    destruct (Z.to_nat (end_ - start + 1)) as [| f] eqn:Hf; [lia |].
    replace (start + Z.of_nat (S f) - 1) with end_ by lia.
    destruct (GOAL_CONSTRAINTS_TEST test); simpl; rewrite ?andb_true_r.
    + split; [intros Hg; split; [apply Hall; exact Hok | intros _; exact Hg]
             | intros [_ Hg]; apply Hg; reflexivity].
    + split; [intros _; split; [apply Hall; exact Hok | discriminate]
             | intros _; reflexivity].
  - simpl. split; [discriminate |].
    intros [Hok _]. pose proof (proj2 Hall Hok) as Hok'.
    assert (Hc : false = true) by (apply Hiff; split; [reflexivity | exact Hok']).
    discriminate.
Qed.


(** Once the joints are known, [trajectory_error_codes] comes back resized to the number of points of the trajectory, and the environment's verbose flag is restored. *)
Theorem isTrajectoryValidAux_codes_length (t : JointTrajectory) (rs : RobotStateMsg)
    (start end_ : Z) (test : TestFlags) (verbose env_verbose : bool)
    (ec : ErrorCode) (codes : list ErrorCode)
    (Hknown : forall n, In n (joint_names t) -> jointKnown n = true) :
  List.length (aux_codes (aux t rs start end_ test verbose env_verbose ec codes))
  = List.length (points t)
  /\ aux_verbose (aux t rs start end_ test verbose env_verbose ec codes) = env_verbose.
Proof.
  rewrite aux_loop by assumption.
  match goal with |- context [if ?b then _ else _] => destruct b end; simpl;
    rewrite loop_codes_length; simpl; rewrite resize_codes_length; auto.
Qed.

Lemma aux_codes_loop (t : JointTrajectory) (rs : RobotStateMsg)
    (start end_ : Z) (test : TestFlags) (verbose env_verbose : bool)
    (ec : ErrorCode) (codes : list ErrorCode) :
  (forall n, In n (joint_names t) -> jointKnown n = true) ->
  aux_codes (aux t rs start end_ test verbose env_verbose ec codes)
  = loop_codes (loop t (robot_state_values rs) test start (Z.to_nat (end_ - start + 1))
             {| valid := true; valid_all := true; loop_error := ec;
                loop_codes := resize_codes codes (List.length (points t));
                joint_value_map := init_joint_map (joint_names t);
                kstate := robot_state_values rs |}).
Proof.
  intros Hknown. rewrite aux_loop by assumption.
  match goal with |- context [if ?b then _ else _] => destruct b end; reflexivity.
Qed.

(** With the full-trajectory flag and the path test on, a point that passes the size, joint-limit and collision checks but violates the path constraints gets the per-point code [COLLISION_CONSTRAINTS_VIOLATED], not [PATH_CONSTRAINTS_VIOLATED]. *)
Theorem isTrajectoryValidAux_path_violation_code (t : JointTrajectory) (rs : RobotStateMsg)
    (start end_ i : Z) (test : TestFlags) (verbose env_verbose : bool)
    (ec : ErrorCode) (codes : list ErrorCode)
    (Hknown : forall n, In n (joint_names t) -> jointKnown n = true)
    (Hrange : 0 <= start <= i) (Hi : i <= end_) (Hend : end_ < Z.of_nat (List.length (points t)))
    (Hall : CHECK_FULL_TRAJECTORY test = true) (Hpath : PATH_CONSTRAINTS_TEST test = true)
    (Hl : List.length (point_positions t i) = List.length (joint_names t))
    (Hjl : JOINT_LIMITS_TEST test = true ->
           areJointsWithinBounds (point_state t (robot_state_values rs) i) (joint_names t) = true)
    (Hco : COLLISION_TEST test = true ->
           inCollision (point_state t (robot_state_values rs) i) = false)
    (Hviol : checkPathConstraints (point_state t (robot_state_values rs) i) = false) :
  nth (Z.to_nat i) (aux_codes (aux t rs start end_ test verbose env_verbose ec codes)) DEFAULT_CODE
  = COLLISION_CONSTRAINTS_VIOLATED.
Proof.
  rewrite aux_codes_loop by assumption.
  set (base := robot_state_values rs) in *.
  set (st0 := {| valid := true; valid_all := true; loop_error := ec;
                 loop_codes := resize_codes codes (List.length (points t));
                 joint_value_map := init_joint_map (joint_names t); kstate := base |}).
  replace (Z.to_nat (end_ - start + 1))
    with (Z.to_nat (i - start) + S (Z.to_nat (end_ - i)))%nat by lia.
  rewrite loop_split by assumption.
  replace (start + Z.of_nat (Z.to_nat (i - start))) with i by lia.
  destruct (loop_spec inCollision areJointsWithinBounds checkPathConstraints t base test
              (Z.to_nat (i - start)) start st0 eq_refl (fun H => ltac:(discriminate)))
    as (Hk1 & _ & _ & _).
  set (st1 := loop t base test start (Z.to_nat (i - start)) st0) in *.
  simpl.
  assert (Hb := step_no_break inCollision areJointsWithinBounds checkPathConstraints t base test i st1 Hall).
  assert (Hc := step_path_code inCollision areJointsWithinBounds checkPathConstraints t base test i st1 Hk1).
  assert (Hlen : List.length (loop_codes st1) = List.length (points t)).
  { unfold st1. rewrite loop_codes_length. apply resize_codes_length. }
  destruct (point_step inCollision areJointsWithinBounds checkPathConstraints t base test i st1)
    as [st2 brk] eqn:Hs. simpl in Hb. subst brk.
  rewrite loop_codes_below by lia.
  apply Hc; auto. lia.
Qed.

(** With the full-trajectory flag on and the joint-limit and collision tests off, a well-formed point right after a malformed one is marked [COLLISION_CONSTRAINTS_VIOLATED]: the [valid] flag left false by the malformed point is not reset. *)
Theorem isTrajectoryValidAux_stale_valid_code (t : JointTrajectory) (rs : RobotStateMsg)
    (start end_ i : Z) (test : TestFlags) (verbose env_verbose : bool)
    (ec : ErrorCode) (codes : list ErrorCode)
    (Hknown : forall n, In n (joint_names t) -> jointKnown n = true)
    (Hrange : 0 <= start <= i) (Hi : i + 1 <= end_) (Hend : end_ < Z.of_nat (List.length (points t)))
    (Hall : CHECK_FULL_TRAJECTORY test = true)
    (Hjl : JOINT_LIMITS_TEST test = false) (Hco : COLLISION_TEST test = false)
    (Hbad : List.length (point_positions t i) <> List.length (joint_names t))
    (Hgood : List.length (point_positions t (i + 1)) = List.length (joint_names t)) :
  nth (Z.to_nat (i + 1)) (aux_codes (aux t rs start end_ test verbose env_verbose ec codes))
    DEFAULT_CODE
  = COLLISION_CONSTRAINTS_VIOLATED.
Proof.
  rewrite aux_codes_loop by assumption.
  set (base := robot_state_values rs) in *.
  set (st0 := {| valid := true; valid_all := true; loop_error := ec;
                 loop_codes := resize_codes codes (List.length (points t));
                 joint_value_map := init_joint_map (joint_names t); kstate := base |}).
  replace (Z.to_nat (end_ - start + 1))
    with (Z.to_nat (i - start) + S (S (Z.to_nat (end_ - i - 1))))%nat by lia.
  rewrite loop_split by assumption.
  replace (start + Z.of_nat (Z.to_nat (i - start))) with i by lia.
  set (st1 := loop t base test start (Z.to_nat (i - start)) st0) in *.
  assert (Hlen : List.length (loop_codes st1) = List.length (points t)).
  { unfold st1. rewrite loop_codes_length. apply resize_codes_length. }
  simpl.
  assert (Hb := step_no_break inCollision areJointsWithinBounds checkPathConstraints t base test i st1 Hall).
  assert (Hv := step_malformed_valid inCollision areJointsWithinBounds checkPathConstraints t base test i st1 Hbad).
  destruct (step_codes inCollision areJointsWithinBounds checkPathConstraints t base test i st1)
    as [Hl2 _].
  destruct (point_step inCollision areJointsWithinBounds checkPathConstraints t base test i st1)
    as [st2 brk] eqn:Hs. simpl in Hb, Hv, Hl2. subst brk.
  assert (Hb' := step_no_break inCollision areJointsWithinBounds checkPathConstraints t base test (i + 1) st2 Hall).
  assert (Hc := step_stale_valid_code inCollision areJointsWithinBounds checkPathConstraints t base test (i + 1) st2).
  destruct (point_step inCollision areJointsWithinBounds checkPathConstraints t base test (i + 1) st2)
    as [st3 brk] eqn:Hs'. simpl in Hb'. subst brk.
  rewrite loop_codes_below by lia.
  apply Hc; auto. lia.
Qed.

(** Without the full-trajectory flag the loop stops at the first failing point: every code after it keeps the value it had after the resize. *)
Theorem isTrajectoryValidAux_stops_at_first_failure (t : JointTrajectory) (rs : RobotStateMsg)
    (start end_ k : Z) (test : TestFlags) (verbose env_verbose : bool)
    (ec : ErrorCode) (codes : list ErrorCode) (j : nat)
    (Hknown : forall n, In n (joint_names t) -> jointKnown n = true)
    (Hrange : 0 <= start <= k) (Hk : k <= end_) (Hend : end_ < Z.of_nat (List.length (points t)))
    (Hnoall : CHECK_FULL_TRAJECTORY test = false)
    (Hfail : ok t (robot_state_values rs) test k = false)
    (Hj : (Z.to_nat k < j)%nat) :
  nth j (aux_codes (aux t rs start end_ test verbose env_verbose ec codes)) DEFAULT_CODE
  = nth j (resize_codes codes (List.length (points t))) DEFAULT_CODE.
Proof.
  rewrite aux_codes_loop by assumption.
  erewrite loop_stops; try eassumption; try reflexivity; lia.
Qed.

End Aux.

(** *** [isEnvironmentSafe] and [isStateValid] *)

(** [isEnvironmentSafe] answers true exactly when the collision map (if used) is present and up to date and the joint states and poses are up to date; it then sets [SUCCESS], and a missing or stale collision map gives [SENSOR_INFO_STALE] whatever else holds. *)
Theorem isEnvironmentSafe_spec (st : SensorStatus) (ec : ErrorCode) :
  (fst (isEnvironmentSafe st ec) = true <->
   (use_collision_map st = true -> haveMap st = true /\ isMapUpdated st = true)
   /\ isJointStateUpdated st = true /\ isPoseUpdated st = true)
  /\ (fst (isEnvironmentSafe st ec) = true -> snd (isEnvironmentSafe st ec) = SUCCESS)
  /\ (use_collision_map st = true -> haveMap st && isMapUpdated st = false ->
      isEnvironmentSafe st ec = (false, SENSOR_INFO_STALE)).
Proof.
  unfold isEnvironmentSafe.
  destruct (use_collision_map st), (haveMap st), (isMapUpdated st),
    (isJointStateUpdated st), (isPoseUpdated st); simpl;
    repeat split; intuition (try discriminate).
Qed.

Section StateValid.
Variable inCollision : list (string * Z) -> bool.
Variable areJointsWithinBounds : list (string * Z) -> list string -> bool.
Variable checkPathConstraints : list (string * Z) -> bool.
Variable checkGoalConstraints : list (string * Z) -> bool.

Local Abbreviation isv := (isStateValid inCollision areJointsWithinBounds checkPathConstraints
                             checkGoalConstraints).

(** [isStateValid] answers true exactly when each enabled test (collision, joint limits, path, goal) passes on the state of the message, and it leaves [error_code] unchanged when it answers true. *)
Theorem isStateValid_spec (rs : RobotStateMsg) (test : TestFlags) (verbose env_verbose : bool)
    (ec : ErrorCode) :
  let s := robot_state_values rs in
  (fst (fst (isv rs test verbose env_verbose ec)) = true <->
   (COLLISION_TEST test = true -> inCollision s = false)
   /\ (JOINT_LIMITS_TEST test = true -> areJointsWithinBounds s (joint_state_name rs) = true)
   /\ (PATH_CONSTRAINTS_TEST test = true -> checkPathConstraints s = true)
   /\ (GOAL_CONSTRAINTS_TEST test = true -> checkGoalConstraints s = true))
  /\ (fst (fst (isv rs test verbose env_verbose ec)) = true ->
      snd (fst (isv rs test verbose env_verbose ec)) = ec).
Proof.
  intros s. unfold isStateValid. fold s.
  destruct (COLLISION_TEST test), (inCollision s), (JOINT_LIMITS_TEST test),
    (areJointsWithinBounds s (joint_state_name rs)), (PATH_CONSTRAINTS_TEST test),
    (checkPathConstraints s), (GOAL_CONSTRAINTS_TEST test), (checkGoalConstraints s);
    simpl; intuition (try discriminate).
Qed.

(** [isStateValid] restores the environment's verbose flag only on success; on every early return the flag keeps the value set for the check. *)
Theorem isStateValid_verbose (rs : RobotStateMsg) (test : TestFlags) (verbose env_verbose : bool)
    (ec : ErrorCode) :
  snd (isv rs test verbose env_verbose ec)
  = if fst (fst (isv rs test verbose env_verbose ec)) then env_verbose else verbose.
Proof.
  unfold isStateValid.
  set (s := robot_state_values rs).
  destruct (COLLISION_TEST test), (inCollision s), (JOINT_LIMITS_TEST test),
    (areJointsWithinBounds s (joint_state_name rs)), (PATH_CONSTRAINTS_TEST test),
    (checkPathConstraints s), (GOAL_CONSTRAINTS_TEST test), (checkGoalConstraints s);
    reflexivity.
Qed.

End StateValid.

(** *** [transformTrajectoryToFrame] *)

Section Transform.
Variable jointKnown : string -> bool.

Lemma transform_state_joints_spec (names : list string) (f target : string) (ec : ErrorCode) :
  let r := transform_state_joints jointKnown names f target ec in
  fst (fst r) = forallb jointKnown names
  /\ (fst (fst r) = true -> snd r = ec)
  /\ (fst (fst r) = false -> snd r = INVALID_TRAJECTORY)
  /\ (snd (fst r) = f \/ snd (fst r) = target).
Proof.
  revert f. induction names as [| n names IH]; intros f; simpl.
  - intuition (try discriminate).
  - unfold transformJoint. destruct (jointKnown n); simpl.
    + destruct (IH target) as (H1 & H2 & H3 & H4). intuition.
    + intuition (try discriminate).
Qed.

Lemma transform_state_joints_target (names : list string) (target : string) (ec : ErrorCode) :
  snd (fst (transform_state_joints jointKnown names target target ec)) = target.
Proof.
  destruct (transform_state_joints_spec names target target ec) as (_ & _ & _ & [H | H]);
    exact H.
Qed.

Lemma forallb_known (names : list string) :
  forallb jointKnown names = true <-> (forall n, In n names -> jointKnown n = true).
Proof. apply forallb_forall. Qed.

Lemma existsb_unknown (names : list string) :
  existsb (fun n => negb (jointKnown n)) names = negb (forallb jointKnown names).
Proof.
  induction names as [| n names IH]; simpl; [reflexivity |].
  rewrite IH. destruct (jointKnown n); reflexivity.
Qed.

Lemma transformTrajectoryToFrame_facts (kp : JointTrajectory) (rs : RobotStateMsg)
    (target : string) (ec : ErrorCode) :
  let state_joints := firstn (List.length (joint_state_position rs)) (joint_state_name rs) in
  let r := transformTrajectoryToFrame jointKnown kp rs target ec in
  (fst (fst r) = true <->
   (forall n, In n state_joints -> jointKnown n = true)
   /\ (forall n, In n (joint_names kp) -> jointKnown n = true))
  /\ (fst (fst r) = true -> snd (fst r) = with_frame kp target /\ snd r = ec)
  /\ (fst (fst r) = false -> snd r = INVALID_TRAJECTORY)
  /\ joint_names (snd (fst r)) = joint_names kp
  /\ points (snd (fst r)) = points kp.
Proof.
  intros state_joints r. unfold r, transformTrajectoryToFrame. fold state_joints.
  destruct (transform_state_joints_spec state_joints (frame_id kp) target ec)
    as (H1 & H2 & H3 & _).
  destruct (transform_state_joints jointKnown state_joints (frame_id kp) target ec)
    as [[ok f] ec'] eqn:Hs. simpl in *.
  rewrite <- !forallb_known, existsb_unknown.
  destruct ok; simpl.
  - rewrite <- H1. destruct (forallb jointKnown (joint_names kp)); simpl;
      intuition (try discriminate).
  - rewrite <- H1. intuition (try discriminate).
Qed.

(** [transformTrajectoryToFrame] succeeds exactly when every joint of the robot state that has a position and every joint of the trajectory is known; on success the trajectory is in the target frame with [error_code] unchanged, on failure the code is [INVALID_TRAJECTORY]; joint names and points are never changed. *)
Theorem transformTrajectoryToFrame_spec (kp : JointTrajectory) (rs : RobotStateMsg)
    (target : string) (ec : ErrorCode) :
  let state_joints := firstn (List.length (joint_state_position rs)) (joint_state_name rs) in
  let r := transformTrajectoryToFrame jointKnown kp rs target ec in
  (fst (fst r) = true <->
   (forall n, In n state_joints -> jointKnown n = true)
   /\ (forall n, In n (joint_names kp) -> jointKnown n = true))
  /\ (fst (fst r) = true -> snd (fst r) = with_frame kp target /\ snd r = ec)
  /\ (fst (fst r) = false -> snd r = INVALID_TRAJECTORY)
  /\ joint_names (snd (fst r)) = joint_names kp
  /\ points (snd (fst r)) = points kp.
Proof. exact (transformTrajectoryToFrame_facts kp rs target ec). Qed.

(** As soon as the first joint of the robot state is known, the trajectory's [frame_id] is set to the target frame, even when a later joint makes the call fail. *)
Theorem transformTrajectoryToFrame_rewrites_frame_early (kp : JointTrajectory)
    (rs : RobotStateMsg) (target : string) (ec : ErrorCode) (n : string) (names : list string)
    (p : Z) (ps : list Z)
    (Hnames : joint_state_name rs = n :: names) (Hpos : joint_state_position rs = p :: ps)
    (Hknown : jointKnown n = true) :
  frame_id (snd (fst (transformTrajectoryToFrame jointKnown kp rs target ec))) = target.
Proof.
  unfold transformTrajectoryToFrame. rewrite Hnames, Hpos. simpl.
  unfold transformJoint at 1. rewrite Hknown.
  assert (Ht := transform_state_joints_target (firstn (List.length ps) names) target ec).
  destruct (transform_state_joints jointKnown (firstn (List.length ps) names) target target ec)
    as [[ok f] ec'] eqn:Hs. simpl in Ht. subst f.
  destruct ok; simpl; [| reflexivity].
  destruct (existsb (fun n0 => negb (jointKnown n0)) (joint_names kp)); reflexivity.
Qed.

Lemma transformTrajectoryToFrame_copy_spec (kp : JointTrajectory) (rs : RobotStateMsg)
    (target : string) (ec : ErrorCode) :
  let state_joints := firstn (List.length (joint_state_position rs)) (joint_state_name rs) in
  transformTrajectoryToFrame_copy jointKnown kp rs target ec
  = if forallb jointKnown state_joints && forallb jointKnown (joint_names kp)
    then (Some (with_frame kp target), ec)
    else (None, INVALID_TRAJECTORY).
Proof.
  intros state_joints.
  destruct (transformTrajectoryToFrame_facts kp rs target ec) as (Hiff & Hok & Hko & _).
  unfold transformTrajectoryToFrame_copy.
  destruct (transformTrajectoryToFrame jointKnown kp rs target ec) as [[ok kp'] ec'].
  simpl in *. fold state_joints in Hiff.
  destruct ok.
  - destruct (Hok eq_refl) as [-> ->].
    destruct (proj1 Hiff eq_refl) as [Ha Hb].
    rewrite <- forallb_known in Ha, Hb. rewrite Ha, Hb. reflexivity.
  - rewrite (Hko eq_refl).
    destruct (forallb jointKnown state_joints) eqn:Ha, (forallb jointKnown (joint_names kp)) eqn:Hb;
      simpl; try reflexivity.
    rewrite forallb_known in Ha, Hb.
    assert (false = true) by (apply Hiff; split; assumption). discriminate.
Qed.

End Transform.

(** *** The callers of [transformTrajectoryToFrame] *)

Lemma closest_loop_with_frame (vals : list (string * Z)) (t : JointTrajectory) (w : string)
    (fuel : nat) (i pos dist : Z) :
  closest_loop vals (with_frame t w) i fuel pos dist = closest_loop vals t i fuel pos dist.
Proof.
  revert i pos dist. induction fuel as [| f IH]; intros i pos dist; simpl; [reflexivity |].
  change (point_distance vals (with_frame t w) i) with (point_distance vals t i).
  destruct ((pos <? 0) || (point_distance vals t i <? dist)); apply IH.
Qed.

Lemma closestStateOnTrajectoryAux_with_frame (vals : list (string * Z)) (t : JointTrajectory)
    (w : string) (start end_ : Z) (ec : ErrorCode) :
  closestStateOnTrajectoryAux vals (with_frame t w) start end_ ec
  = closestStateOnTrajectoryAux vals t start end_ ec.
Proof.
  unfold closestStateOnTrajectoryAux. simpl. rewrite closest_loop_with_frame. reflexivity.
Qed.

Section Callers.
Variable jointKnown : string -> bool.
Variable inCollision : list (string * Z) -> bool.
Variable areJointsWithinBounds : list (string * Z) -> list string -> bool.
Variable checkPathConstraints : list (string * Z) -> bool.
Variable checkGoalConstraints : list (string * Z) -> bool.
Variable getWorldFrameId : string.

Local Abbreviation aux := (isTrajectoryValidAux jointKnown inCollision areJointsWithinBounds
                             checkPathConstraints checkGoalConstraints).

Lemma validity_loop_with_frame (t : JointTrajectory) (w : string) (base : list (string * Z))
    (test : TestFlags) (fuel : nat) (i : Z) (st : LoopState) :
  validity_loop inCollision areJointsWithinBounds checkPathConstraints (with_frame t w) base test i fuel st
  = validity_loop inCollision areJointsWithinBounds checkPathConstraints t base test i fuel st.
Proof.
  revert i st. induction fuel as [| f IH]; intros i st; simpl; [reflexivity |].
  change (point_step inCollision areJointsWithinBounds checkPathConstraints (with_frame t w) base test i st)
    with (point_step inCollision areJointsWithinBounds checkPathConstraints t base test i st).
  destruct (point_step inCollision areJointsWithinBounds checkPathConstraints t base test i st)
    as [st' brk].
  destruct brk; [reflexivity | apply IH].
Qed.

Lemma isTrajectoryValidAux_with_frame (t : JointTrajectory) (w : string) (rs : RobotStateMsg)
    (start end_ : Z) (test : TestFlags) (verbose env_verbose : bool) (ec : ErrorCode)
    (codes : list ErrorCode) :
  aux (with_frame t w) rs start end_ test verbose env_verbose ec codes
  = aux t rs start end_ test verbose env_verbose ec codes.
Proof.
  unfold isTrajectoryValidAux. simpl. rewrite validity_loop_with_frame. reflexivity.
Qed.

(** For a non-empty range, [closestStateOnTrajectory] searches the clamped range of the trajectory itself when it is already in the world frame or all joints are known, and otherwise returns -1 with [FRAME_TRANSFORM_FAILURE]. *)
Theorem closestStateOnTrajectory_transform (vals : list (string * Z)) (t : JointTrajectory)
    (rs : RobotStateMsg) (start end_ : Z) (ec : ErrorCode)
    (Hrange : start <= clamp_end t end_) :
  closestStateOnTrajectory_full jointKnown getWorldFrameId vals t rs start end_ ec
  = if String.eqb (frame_id t) getWorldFrameId
       || (forallb jointKnown (firstn (List.length (joint_state_position rs)) (joint_state_name rs))
           && forallb jointKnown (joint_names t))
    then closestStateOnTrajectoryAux vals t start (clamp_end t end_) ec
    else (-1, FRAME_TRANSFORM_FAILURE).
Proof.
  unfold closestStateOnTrajectory_full, closestStateOnTrajectory.
  replace (clamp_end t end_ <? start) with false by (symmetry; apply Z.ltb_ge; lia).
  destruct (String.eqb (frame_id t) getWorldFrameId); simpl; [reflexivity |].
  rewrite transformTrajectoryToFrame_copy_spec.
  match goal with |- context [if ?b then _ else _] => destruct b end;
    [apply closestStateOnTrajectoryAux_with_frame | reflexivity].
Qed.

(** For a non-empty range, [isTrajectoryValid] gives the answer of [isTrajectoryValidAux] on the clamped range when the trajectory is in the world frame or all joints are known, and otherwise false with [FRAME_TRANSFORM_FAILURE]. *)
Theorem isTrajectoryValid_transform (t : JointTrajectory) (rs : RobotStateMsg)
    (start end_ : Z) (test : TestFlags) (verbose env_verbose : bool) (ec : ErrorCode)
    (codes : list ErrorCode) (Hrange : start <= clamp_end t end_) :
  isTrajectoryValid_full jointKnown inCollision areJointsWithinBounds checkPathConstraints
    checkGoalConstraints getWorldFrameId t rs start end_ test verbose env_verbose ec codes
  = if String.eqb (frame_id t) getWorldFrameId
       || (forallb jointKnown (firstn (List.length (joint_state_position rs)) (joint_state_name rs))
           && forallb jointKnown (joint_names t))
    then (aux_valid (aux t rs start (clamp_end t end_) test verbose env_verbose ec codes),
          aux_error (aux t rs start (clamp_end t end_) test verbose env_verbose ec codes))
    else (false, FRAME_TRANSFORM_FAILURE).
Proof.
  unfold isTrajectoryValid_full, isTrajectoryValid.
  replace (clamp_end t end_ <? start) with false by (symmetry; apply Z.ltb_ge; lia).
  destruct (String.eqb (frame_id t) getWorldFrameId); simpl; [reflexivity |].
  rewrite transformTrajectoryToFrame_copy_spec.
  match goal with |- context [if ?b then _ else _] => destruct b end;
    [rewrite isTrajectoryValidAux_with_frame; reflexivity | reflexivity].
Qed.

(** On an empty trajectory in the world frame the whole-trajectory overloads pass the wrapped end [2^32 - 1] to the auxiliary functions instead of reporting an empty range. *)
Theorem whole_trajectory_overloads_empty (vals : list (string * Z)) (t : JointTrajectory)
    (rs : RobotStateMsg) (test : TestFlags) (verbose env_verbose : bool) (ec : ErrorCode)
    (codes : list ErrorCode)
    (Hempty : points t = []) (Hworld : frame_id t = getWorldFrameId) :
  closestStateOnTrajectory_whole jointKnown getWorldFrameId vals t rs ec
  = closestStateOnTrajectoryAux vals t 0 (2 ^ 32 - 1) ec
  /\ isTrajectoryValid_whole jointKnown inCollision areJointsWithinBounds checkPathConstraints
       checkGoalConstraints getWorldFrameId t rs test verbose env_verbose ec codes
     = (aux_valid (aux t rs 0 (2 ^ 32 - 1) test verbose env_verbose ec codes),
        aux_error (aux t rs 0 (2 ^ 32 - 1) test verbose env_verbose ec codes)).
Proof.
  assert (Hend : clamp_end t (size_minus_one t) = 2 ^ 32 - 1).
  { unfold clamp_end, size_minus_one, uint32. rewrite Hempty. reflexivity. }
  unfold closestStateOnTrajectory_whole, isTrajectoryValid_whole,
    closestStateOnTrajectory_full, isTrajectoryValid_full,
    closestStateOnTrajectory, isTrajectoryValid.
  rewrite Hend, Hworld, String.eqb_refl. split; reflexivity.
Qed.

End Callers.

(** *** Witnesses: the theorems above applied to the example model *)

Section Witnesses.
Import ChecksExamples.

Local Abbreviation waux := (isTrajectoryValidAux wx_known wx_collision wx_bounds wx_path wx_goal).
Local Abbreviation wok := (point_ok wx_collision wx_bounds wx_path).
Local Abbreviation wbase := (robot_state_values wx_rs).

Local Ltac known_joints := intros ? [<- | [<- | []]]; reflexivity.

Lemma isTrajectoryValidAux_valid_iff_witness :
  (forall n, In n (joint_names wx_traj) -> wx_known n = true) /\ 0 <= 0 <= 2
  /\ 2 < Z.of_nat (List.length (points wx_traj))
  /\ (aux_valid (waux wx_traj wx_rs 0 2 wx_all false true SUCCESS []) = true
      <-> (forall i, 0 <= i <= 2 -> wok wx_traj wbase wx_all i = true)
          /\ (GOAL_CONSTRAINTS_TEST wx_all = true ->
              wx_goal (point_state wx_traj wbase 2) = true)).
Proof.
  split; [known_joints |]. split; [lia |]. split; [vm_compute; reflexivity |].
  apply isTrajectoryValidAux_valid_iff; [known_joints | lia | vm_compute; reflexivity].
Defined.


Lemma isTrajectoryValidAux_codes_length_witness :
  (forall n, In n (joint_names wx_traj) -> wx_known n = true)
  /\ List.length (aux_codes (waux wx_traj wx_rs 0 0 wx_all false true SUCCESS [SUCCESS]))
     = List.length (points wx_traj)
  /\ aux_verbose (waux wx_traj wx_rs 0 0 wx_all false true SUCCESS [SUCCESS]) = true.
Proof.
  split; [known_joints |].
  apply isTrajectoryValidAux_codes_length. known_joints.
Defined.

Lemma isTrajectoryValidAux_path_violation_code_witness :
  wx_path (point_state wx_traj wbase 1) = false
  /\ nth 1 (aux_codes (waux wx_traj wx_rs 0 2 wx_all false true SUCCESS [])) DEFAULT_CODE
     = COLLISION_CONSTRAINTS_VIOLATED.
Proof.
  split; [vm_compute; reflexivity |].
  apply (isTrajectoryValidAux_path_violation_code wx_known wx_collision wx_bounds wx_path wx_goal
           wx_traj wx_rs 0 2 1 wx_all false true SUCCESS []);
    try known_joints; try lia; try (intros _); vm_compute; reflexivity.
Defined.

Lemma isTrajectoryValidAux_stale_valid_code_witness :
  List.length (point_positions wx_gap 1) <> List.length (joint_names wx_gap)
  /\ wok wx_gap wbase wx_path_only 2 = true
  /\ nth 2 (aux_codes (waux wx_gap wx_rs 0 2 wx_path_only false true SUCCESS [])) DEFAULT_CODE
     = COLLISION_CONSTRAINTS_VIOLATED.
Proof.
  split; [vm_compute; discriminate |]. split; [vm_compute; reflexivity |].
  apply (isTrajectoryValidAux_stale_valid_code wx_known wx_collision wx_bounds wx_path wx_goal
           wx_gap wx_rs 0 2 1 wx_path_only false true SUCCESS []);
    try known_joints; try lia; vm_compute; try reflexivity; discriminate.
Defined.

Lemma isTrajectoryValidAux_stops_at_first_failure_witness :
  wok wx_traj wbase wx_first_failure 1 = false
  /\ nth 2 (aux_codes (waux wx_traj wx_rs 0 2 wx_first_failure false true SUCCESS [])) DEFAULT_CODE
     = nth 2 (resize_codes [] (List.length (points wx_traj))) DEFAULT_CODE.
Proof.
  split; [vm_compute; reflexivity |].
  apply (isTrajectoryValidAux_stops_at_first_failure wx_known wx_collision wx_bounds wx_path
           wx_goal wx_traj wx_rs 0 2 1 wx_first_failure false true SUCCESS [] 2);
    try known_joints; try lia; vm_compute; reflexivity.
Defined.

Lemma transformTrajectoryToFrame_rewrites_frame_early_witness :
  wx_known "a" = true
  /\ fst (fst (transformTrajectoryToFrame wx_known wx_foreign wx_rs "base" SUCCESS)) = false
  /\ frame_id (snd (fst (transformTrajectoryToFrame wx_known wx_foreign wx_rs "base" SUCCESS)))
     = "base"%string.
Proof.
  split; [reflexivity |]. split; [vm_compute; reflexivity |].
  apply (transformTrajectoryToFrame_rewrites_frame_early wx_known wx_foreign wx_rs "base" SUCCESS
           "a" ["b"%string] 0 [0]); reflexivity.
Defined.

Lemma closestStateOnTrajectory_transform_witness :
  0 <= clamp_end wx_traj 10
  /\ closestStateOnTrajectory_full wx_known "map" wx_vals wx_traj wx_rs 0 10 SUCCESS
     = closestStateOnTrajectoryAux wx_vals wx_traj 0 (clamp_end wx_traj 10) SUCCESS.
Proof.
  split; [vm_compute; discriminate |].
  rewrite (closestStateOnTrajectory_transform wx_known "map" wx_vals wx_traj wx_rs 0 10 SUCCESS)
    by (vm_compute; discriminate).
  reflexivity.
Defined.

Lemma isTrajectoryValid_transform_witness :
  0 <= clamp_end wx_foreign 0
  /\ isTrajectoryValid_full wx_known wx_collision wx_bounds wx_path wx_goal "map"
       wx_foreign wx_rs 0 0 wx_all false true SUCCESS []
     = (false, FRAME_TRANSFORM_FAILURE).
Proof.
  split; [vm_compute; discriminate |].
  rewrite (isTrajectoryValid_transform wx_known wx_collision wx_bounds wx_path wx_goal "map"
             wx_foreign wx_rs 0 0 wx_all false true SUCCESS [])
    by (vm_compute; discriminate).
  reflexivity.
Defined.

Lemma whole_trajectory_overloads_empty_witness :
  points wx_empty = [] /\ frame_id wx_empty = "base"%string
  /\ closestStateOnTrajectory_whole wx_known "base" wx_vals wx_empty wx_rs SUCCESS
     = closestStateOnTrajectoryAux wx_vals wx_empty 0 (2 ^ 32 - 1) SUCCESS
  /\ isTrajectoryValid_whole wx_known wx_collision wx_bounds wx_path wx_goal "base"
       wx_empty wx_rs wx_all false true SUCCESS []
     = (aux_valid (waux wx_empty wx_rs 0 (2 ^ 32 - 1) wx_all false true SUCCESS []),
        aux_error (waux wx_empty wx_rs 0 (2 ^ 32 - 1) wx_all false true SUCCESS [])).
Proof.
  split; [reflexivity |]. split; [reflexivity |].
  apply (whole_trajectory_overloads_empty wx_known wx_collision wx_bounds wx_path wx_goal "base"
           wx_vals wx_empty wx_rs wx_all false true SUCCESS []); reflexivity.
Defined.

End Witnesses.

End PlanningMonitorChecksProofs.

Module PlanningMonitorSetupProofs.
Import PlanningMonitor PlanningMonitorChecks PlanningMonitorSetup PlanningMonitorNotions.

(** *** The ordered string set of [getChildLinks] *)

Lemma ascii_compare_lt_trans (x y z : Ascii.ascii) :
  Ascii.compare x y = Lt -> Ascii.compare y z = Lt -> Ascii.compare x z = Lt.
Proof.
  unfold Ascii.compare. rewrite !N.compare_lt_iff. lia.
Qed.

Lemma string_compare_refl (a : string) : String.compare a a = Eq.
Proof.
  induction a as [| x a IH]; simpl; [reflexivity |].
  unfold Ascii.compare at 1. rewrite N.compare_refl. exact IH.
Qed.

Lemma str_lt_trans (a b c : string) : str_lt a b -> str_lt b c -> str_lt a c.
Proof.
  unfold str_lt. revert b c.
  induction a as [| x a IH]; intros [| y b] [| z c]; simpl; try discriminate; auto.
  destruct (Ascii.compare x y) eqn:Hxy; try discriminate;
    destruct (Ascii.compare y z) eqn:Hyz; try discriminate; intros H1 H2.
  - apply Ascii.compare_eq_iff in Hxy, Hyz. subst.
    unfold Ascii.compare at 1. rewrite N.compare_refl. apply (IH b c); assumption.
  - apply Ascii.compare_eq_iff in Hxy. subst. rewrite Hyz. reflexivity.
  - apply Ascii.compare_eq_iff in Hyz. subst. rewrite Hxy. reflexivity.
  - rewrite (ascii_compare_lt_trans x y z Hxy Hyz). reflexivity.
Qed.

Lemma str_lt_gt (a b : string) : String.compare a b = Gt -> str_lt b a.
Proof.
  unfold str_lt. intros H. rewrite String.compare_antisym, H. reflexivity.
Qed.

Lemma set_insert_in (x y : string) (s : list string) :
  In y (set_insert x s) <-> y = x \/ In y s.
Proof.
  induction s as [| z s IH]; simpl; [intuition |].
  destruct (String.compare x z) eqn:E; simpl.
  - apply String.compare_eq_iff in E. subst. intuition.
  - intuition.
  - rewrite IH. intuition.
Qed.

Lemma set_insert_hd (y x : string) (s : list string) :
  HdRel str_lt y s -> str_lt y x -> HdRel str_lt y (set_insert x s).
Proof.
  intros Hd Hyx. destruct s as [| z s]; simpl.
  - constructor. assumption.
  - destruct (String.compare x z); [assumption | constructor; assumption |].
    inversion Hd; subst. constructor. assumption.
Qed.

Lemma set_insert_sorted (x : string) (s : list string) :
  Sorted str_lt s -> Sorted str_lt (set_insert x s).
Proof.
  induction s as [| z s IH]; intros Hs; simpl.
  - repeat constructor.
  - destruct (String.compare x z) eqn:E.
    + assumption.
    + constructor; [assumption | constructor; exact E].
    + inversion Hs; subst. constructor; [apply IH; assumption |].
      apply set_insert_hd; [assumption | apply str_lt_gt; exact E].
Qed.

Lemma sorted_nodup (s : list string) : Sorted str_lt s -> NoDup s.
Proof.
  intros Hs. apply Sorted_StronglySorted in Hs; [| exact str_lt_trans].
  induction Hs as [| a s Hs IH Hall]; constructor; [| exact IH].
  intros Hin. rewrite Forall_forall in Hall. specialize (Hall a Hin).
  unfold str_lt in Hall. rewrite string_compare_refl in Hall. discriminate.
Qed.

Lemma fold_insert_spec (ls s : list string) :
  Sorted str_lt s ->
  Sorted str_lt (fold_left (fun s l => set_insert l s) ls s)
  /\ (forall x, In x (fold_left (fun s l => set_insert l s) ls s) <-> In x s \/ In x ls).
Proof.
  revert s. induction ls as [| l ls IH]; intros s Hs; simpl.
  - split; [assumption | intuition].
  - destruct (IH (set_insert l s) (set_insert_sorted l s Hs)) as [H1 H2].
    split; [assumption |]. intros x. rewrite H2, set_insert_in. intuition.
Qed.

Section ChildLinks.
Variable joint_child_link : string -> option string.
Variable child_link_models : string -> list string.

Lemma child_links_fold_spec (joints s : list string) :
  let f := fun s j => match joint_child_link j with
                      | Some c => fold_left (fun s l => set_insert l s) (child_link_models c) s
                      | None => s
                      end in
  Sorted str_lt s ->
  Sorted str_lt (fold_left f joints s)
  /\ (forall x, In x (fold_left f joints s) <->
       In x s \/ exists j c, In j joints /\ joint_child_link j = Some c /\ In x (child_link_models c)).
Proof.
  intros f. revert s. induction joints as [| j joints IH]; intros s Hs; simpl.
  - split; [assumption |]. intros x. split; [intuition |].
    intros [H | (j & c & [] & _)]. exact H.
  - assert (Hs' : Sorted str_lt (f s j) /\
                  forall x, In x (f s j) <-> In x s \/
                    exists c, joint_child_link j = Some c /\ In x (child_link_models c)).
    { unfold f. destruct (joint_child_link j) as [c |].
      - destruct (fold_insert_spec (child_link_models c) s Hs) as [H1 H2].
        split; [assumption |]. intros x. rewrite H2.
        split; [intros [H | H]; [left | right; exists c]; auto |].
        intros [H | (c' & Hc & H)]; [left; exact H | injection Hc as <-; right; exact H].
      - split; [assumption |]. intros x. split; [intuition |].
        intros [H | (c & Hc & _)]; [exact H | discriminate]. }
    destruct Hs' as [Hs1 Hs2].
    destruct (IH (f s j) Hs1) as [H1 H2].
    split; [assumption |]. intros x. rewrite H2, Hs2. split.
    + intros [[H | (c & Hc & H)] | (j' & c & Hj & Hc & H)].
      * left. exact H.
      * right. exists j, c. auto.
      * right. exists j', c. auto.
    + intros [H | (j' & c & [-> | Hj] & Hc & H)].
      * left. left. exact H.
      * left. right. exists c. auto.
      * right. exists j', c. auto.
Qed.

(** [getChildLinks] appends to [link_names] the child link models of the given joints, sorted and without duplicates, and nothing else. *)
Theorem getChildLinks_spec (joints link_names : list string) :
  exists added,
    getChildLinks joint_child_link child_link_models joints link_names = link_names ++ added
    /\ Sorted (fun a b => String.compare a b = Lt) added
    /\ NoDup added
    /\ (forall x, In x added <->
         exists j c, In j joints /\ joint_child_link j = Some c /\ In x (child_link_models c)).
Proof.
  destruct (child_links_fold_spec joints [] (Sorted_nil _)) as [H1 H2].
  eexists. split; [reflexivity |]. split; [exact H1 |]. split; [apply sorted_nodup; exact H1 |].
  intros x. rewrite H2. simpl. intuition.
Qed.

End ChildLinks.

(** *** [getOrderedCollisionOperationsForOnlyCollideLinks] *)

Section Operations.
Variable attached_bodies : list (string * string).
Variable current_allowed : list (list bool).
Variable vec_indices : list (string * nat).

Local Abbreviation ordered := (getOrderedCollisionOperationsForOnlyCollideLinks
                                 attached_bodies current_allowed vec_indices).
Local Abbreviation all_links := (all_collision_links attached_bodies).

Lemma attached_to_links_in (links : list string) (x : string) :
  In x (attached_to_links attached_bodies links)
  <-> exists l, In (x, l) attached_bodies /\ In l links.
Proof.
  unfold attached_to_links. rewrite in_flat_map. split.
  - intros ([b l] & Hb & Hin). apply in_flat_map in Hin as (l' & Hl' & Hin).
    simpl in Hin. destruct (String.eqb l l') eqn:E; [| contradiction].
    apply String.eqb_eq in E. subst. destruct Hin as [<- | []]. exists l'. auto.
  - intros (l & Hb & Hl). exists (x, l). split; [exact Hb |].
    apply in_flat_map. exists l. split; [exact Hl |]. simpl. rewrite String.eqb_refl. now left.
Qed.

Lemma disable_ops_in (links : list string) (o : CollisionOperation) :
  In o (disable_ops current_allowed vec_indices links) ->
  operation o = DISABLE /\ In (object1 o) links
  /\ exists index j, index_find vec_indices (object1 o) = Some index
                     /\ In (object2 o, j) vec_indices
                     /\ allowed_entry current_allowed index j = true.
Proof.
  unfold disable_ops. rewrite in_flat_map. intros (l & Hl & Hin).
  destruct (index_find vec_indices l) as [index |] eqn:Hf; [| contradiction].
  apply in_flat_map in Hin as ([n j] & Hnj & Hin). simpl in Hin.
  destruct (allowed_entry current_allowed index j) eqn:Ha; [| contradiction].
  destruct Hin as [<- | []]. simpl.
  split; [reflexivity |]. split; [exact Hl |]. exists index, j. auto.
Qed.

(** The ordered collision operations start with one disable of all against all and end with the requested operations; every generated operation in between concerns a collision-check link or an object attached to one. *)
Theorem ordered_operations_shape (links : list string) (requested : list CollisionOperation) :
  exists pre,
    ordered links requested
    = {| object1 := COLLISION_SET_ALL; object2 := COLLISION_SET_ALL; operation := DISABLE |}
      :: pre ++ requested
    /\ Forall (fun o => In (object1 o) (all_links links)) pre.
Proof.
  exists (enable_ops (all_links links) ++ disable_ops current_allowed vec_indices (all_links links)).
  split.
  - unfold getOrderedCollisionOperationsForOnlyCollideLinks. rewrite app_assoc. reflexivity.
  - apply Forall_forall. intros o Hin. apply in_app_iff in Hin as [Hin | Hin].
    + unfold enable_ops in Hin. apply in_map_iff in Hin as (l & <- & Hl). exact Hl.
    + apply disable_ops_in in Hin. tauto.
Qed.

(** An enable of [x] against everything is in the result exactly when [x] is a collision-check link, an object attached to one, or was requested. *)
Theorem ordered_operations_enable (links : list string) (requested : list CollisionOperation)
    (x : string) :
  In {| object1 := x; object2 := COLLISION_SET_ALL; operation := ENABLE |} (ordered links requested)
  <-> In x links \/ (exists l, In (x, l) attached_bodies /\ In l links)
      \/ In {| object1 := x; object2 := COLLISION_SET_ALL; operation := ENABLE |} requested.
Proof.
  unfold getOrderedCollisionOperationsForOnlyCollideLinks, all_collision_links.
  simpl. rewrite !in_app_iff. unfold enable_ops. rewrite in_map_iff.
  rewrite <- attached_to_links_in.
  split.
  - intros [H | [(l & Hl & Hin) | [H | H]]].
    + discriminate.
    + injection Hl as ->. apply in_app_iff in Hin. tauto.
    + apply disable_ops_in in H as [H _]. discriminate.
    + tauto.
  - intros H. right.
    assert (Hx : In x (links ++ attached_to_links attached_bodies links) \/
                 In {| object1 := x; object2 := COLLISION_SET_ALL; operation := ENABLE |} requested)
      by (rewrite in_app_iff; tauto).
    destruct Hx as [Hx | Hx]; [left; exists x; auto | tauto].
Qed.

(** Every disabling operation in the result is either the initial all-against-all disable, a requested operation, or a pair of a collision-check link (or attached object) and a link whose contact the current allowed-collision matrix permits. *)
Theorem ordered_operations_disable (links : list string) (requested : list CollisionOperation)
    (o : CollisionOperation) :
  In o (ordered links requested) -> operation o = DISABLE ->
  (object1 o = COLLISION_SET_ALL /\ object2 o = COLLISION_SET_ALL)
  \/ In o requested
  \/ (In (object1 o) (all_links links)
      /\ exists index j, index_find vec_indices (object1 o) = Some index
                         /\ In (object2 o, j) vec_indices
                         /\ allowed_entry current_allowed index j = true).
Proof.
  unfold getOrderedCollisionOperationsForOnlyCollideLinks. simpl.
  rewrite !in_app_iff. intros [<- | [H | [H | H]]] Hop.
  - left. split; reflexivity.
  - unfold enable_ops in H. apply in_map_iff in H as (l & <- & _). discriminate.
  - apply disable_ops_in in H as (_ & H1 & H2). right. right. auto.
  - right. left. exact H.
Qed.

End Operations.

(** *** [transformConstraintsToFrame] *)

Section Constraints.
Variable transformPoint : string -> string -> point3 -> option point3.
Variable transformQuaternion : string -> string -> quaternion -> option quaternion.

Lemma transform_positions_spec (target : string) (cs : list PositionConstraint) :
  let r := transform_positions transformPoint transformQuaternion target cs in
  map pc_link_name (fst r) = map pc_link_name cs
  /\ map pc_region_orientation (fst r) = map pc_region_orientation cs
  /\ (snd r = true <-> Forall (position_ok transformPoint transformQuaternion target) cs)
  /\ (snd r = true -> Forall (fun c => pc_frame c = target) (fst r)).
Proof.
  induction cs as [| c cs IH]; simpl.
  - repeat split; auto.
  - destruct (transformPoint target (pc_frame c) (pc_position c)) as [p |] eqn:Hp.
    + destruct (transformQuaternion target (pc_frame c) (pc_region_orientation c)) as [q |] eqn:Hq.
      * destruct (transform_positions transformPoint transformQuaternion target cs) as [r ok].
        simpl in *. destruct IH as (H1 & H2 & H3 & H4).
        rewrite H1, H2. split; [reflexivity |]. split; [reflexivity |]. split; [split |].
        -- intros Hok. constructor; [| apply H3; exact Hok].
           unfold position_ok. rewrite Hp, Hq. split; discriminate.
        -- intros Hall. inversion Hall; subst. apply H3. assumption.
        -- intros Hok. constructor; [reflexivity | apply H4; exact Hok].
      * simpl. repeat split; try discriminate.
        intros Hall. inversion Hall as [| ? ? Hc _]; subst.
        unfold position_ok in Hc. rewrite Hq in Hc. destruct Hc as [_ Hc]. contradiction.
    + simpl. repeat split; try discriminate.
      intros Hall. inversion Hall as [| ? ? Hc _]; subst.
      unfold position_ok in Hc. rewrite Hp in Hc. destruct Hc as [Hc _]. contradiction.
Qed.

Lemma transform_orientations_spec (target : string) (cs : list OrientationConstraint) :
  let r := transform_orientations transformQuaternion target cs in
  map oc_link_name (fst r) = map oc_link_name cs
  /\ (snd r = true <->
      Forall (fun c => transformQuaternion target (oc_frame c) (oc_orientation c) <> None) cs)
  /\ (snd r = true -> Forall (fun c => oc_frame c = target) (fst r)).
Proof.
  induction cs as [| c cs IH]; simpl.
  - repeat split; auto.
  - destruct (transformQuaternion target (oc_frame c) (oc_orientation c)) as [q |] eqn:Hq.
    + destruct (transform_orientations transformQuaternion target cs) as [r ok].
      simpl in *. destruct IH as (H1 & H2 & H3).
      rewrite H1. split; [reflexivity |]. split; [split |].
      * intros Hok. constructor; [simpl; rewrite Hq; discriminate | apply H2; exact Hok].
      * intros Hall. inversion Hall; subst. apply H2. assumption.
      * intros Hok. constructor; [reflexivity | apply H3; exact Hok].
    + simpl. repeat split; try discriminate.
      intros Hall. inversion Hall as [| ? ? Hc _]; subst. simpl in Hc. rewrite Hq in Hc.
      contradiction.
Qed.

Lemma transform_visibility_spec (target : string) (cs : list VisibilityConstraint) :
  let r := transform_visibility transformPoint target cs in
  List.length (fst r) = List.length cs
  /\ (snd r = true <->
      Forall (fun c => transformPoint target (vc_target_frame c) (vc_target c) <> None) cs)
  /\ (snd r = true -> Forall (fun c => vc_target_frame c = target) (fst r)).
Proof.
  induction cs as [| c cs IH]; simpl.
  - repeat split; auto.
  - destruct (transformPoint target (vc_target_frame c) (vc_target c)) as [p |] eqn:Hp.
    + destruct (transform_visibility transformPoint target cs) as [r ok].
      simpl in *. destruct IH as (H1 & H2 & H3).
      rewrite H1. split; [reflexivity |]. split; [split |].
      * intros Hok. constructor; [simpl; rewrite Hp; discriminate | apply H2; exact Hok].
      * intros Hall. inversion Hall; subst. apply H2. assumption.
      * intros Hok. constructor; [reflexivity | apply H3; exact Hok].
    + simpl. repeat split; try discriminate.
      intros Hall. inversion Hall as [| ? ? Hc _]; subst. simpl in Hc. rewrite Hp in Hc.
      contradiction.
Qed.

Local Abbreviation tcf := (transformConstraintsToFrame transformPoint transformQuaternion).

Lemma transformConstraintsToFrame_facts (cs : Constraints) (target : string) (ec : ErrorCode) :
  let r := tcf cs target ec in
  (fst (fst r) = true <->
   Forall (position_ok transformPoint transformQuaternion target) (position_constraints cs)
   /\ Forall (fun c => transformQuaternion target (oc_frame c) (oc_orientation c) <> None)
        (orientation_constraints cs)
   /\ Forall (fun c => transformPoint target (vc_target_frame c) (vc_target c) <> None)
        (visibility_constraints cs))
  /\ (fst (fst r) = true ->
      snd r = SUCCESS
      /\ Forall (fun c => pc_frame c = target) (position_constraints (snd (fst r)))
      /\ Forall (fun c => oc_frame c = target) (orientation_constraints (snd (fst r)))
      /\ Forall (fun c => vc_target_frame c = target) (visibility_constraints (snd (fst r))))
  /\ (fst (fst r) = false -> snd r = FRAME_TRANSFORM_FAILURE).
Proof.
  unfold transformConstraintsToFrame. simpl.
  destruct (transform_positions_spec target (position_constraints cs)) as (_ & _ & P3 & P4).
  destruct (transform_orientations_spec target (orientation_constraints cs)) as (_ & O2 & O3).
  destruct (transform_visibility_spec target (visibility_constraints cs)) as (_ & V2 & V3).
  destruct (transform_positions transformPoint transformQuaternion target (position_constraints cs))
    as [ps ok1]; simpl in *.
  destruct ok1; simpl.
  2:{ split; [split; [discriminate | intros (H & _ & _); apply P3 in H; discriminate] |].
      split; [discriminate | reflexivity]. }
  destruct (transform_orientations transformQuaternion target (orientation_constraints cs))
    as [os ok2]; simpl in *.
  destruct ok2; simpl.
  2:{ split; [split; [discriminate | intros (_ & H & _); apply O2 in H; discriminate] |].
      split; [discriminate | reflexivity]. }
  destruct (transform_visibility transformPoint target (visibility_constraints cs))
    as [vs ok3]; simpl in *.
  destruct ok3; simpl.
  2:{ split; [split; [discriminate | intros (_ & _ & H); apply V2 in H; discriminate] |].
      split; [discriminate | reflexivity]. }
  split; [split; [intros _; split; [apply P3 | split; [apply O2 | apply V2]]; reflexivity
                 | reflexivity] |].
  split; [| discriminate].
  intros _. split; [reflexivity |]. auto.
Qed.

(** [transformConstraintsToFrame] succeeds exactly when every position, orientation and visibility constraint can be transformed; it then sets [SUCCESS] with every constraint in the target frame, and otherwise sets [FRAME_TRANSFORM_FAILURE]. *)
Theorem transformConstraintsToFrame_spec (cs : Constraints) (target : string) (ec : ErrorCode) :
  let r := tcf cs target ec in
  (fst (fst r) = true <->
   Forall (position_ok transformPoint transformQuaternion target) (position_constraints cs)
   /\ Forall (fun c => transformQuaternion target (oc_frame c) (oc_orientation c) <> None)
        (orientation_constraints cs)
   /\ Forall (fun c => transformPoint target (vc_target_frame c) (vc_target c) <> None)
        (visibility_constraints cs))
  /\ (fst (fst r) = true ->
      snd r = SUCCESS
      /\ Forall (fun c => pc_frame c = target) (position_constraints (snd (fst r)))
      /\ Forall (fun c => oc_frame c = target) (orientation_constraints (snd (fst r)))
      /\ Forall (fun c => vc_target_frame c = target) (visibility_constraints (snd (fst r))))
  /\ (fst (fst r) = false -> snd r = FRAME_TRANSFORM_FAILURE).
Proof. exact (transformConstraintsToFrame_facts cs target ec). Qed.

(** [transformConstraintsToFrame] leaves the joint constraints, the link names, the region orientations of position constraints and the number of visibility constraints as they were. *)
Theorem transformConstraintsToFrame_keeps (cs : Constraints) (target : string) (ec : ErrorCode) :
  let cs' := snd (fst (tcf cs target ec)) in
  joint_constraints cs' = joint_constraints cs
  /\ map pc_link_name (position_constraints cs') = map pc_link_name (position_constraints cs)
  /\ map pc_region_orientation (position_constraints cs')
     = map pc_region_orientation (position_constraints cs)
  /\ map oc_link_name (orientation_constraints cs') = map oc_link_name (orientation_constraints cs)
  /\ List.length (visibility_constraints cs') = List.length (visibility_constraints cs).
Proof.
  unfold transformConstraintsToFrame. simpl.
  destruct (transform_positions_spec target (position_constraints cs)) as (P1 & P2 & _ & _).
  destruct (transform_orientations_spec target (orientation_constraints cs)) as (O1 & _ & _).
  destruct (transform_visibility_spec target (visibility_constraints cs)) as (V1 & _ & _).
  destruct (transform_positions transformPoint transformQuaternion target (position_constraints cs))
    as [ps ok1]; simpl in *.
  destruct ok1; simpl; [| auto].
  destruct (transform_orientations transformQuaternion target (orientation_constraints cs))
    as [os ok2]; simpl in *.
  destruct ok2; simpl; [| auto].
  destruct (transform_visibility transformPoint target (visibility_constraints cs))
    as [vs ok3]; simpl in *.
  destruct ok3; simpl; auto.
Qed.

(** *** [prepareForValidityChecks] and [revertToDefaultState] *)

Variables AllowedContactSpecification AllowedContact : Type.
Variable computeAllowedContact : AllowedContactSpecification -> option AllowedContact.
Variable world_frame : string.

Local Abbreviation prepare := (prepareForValidityChecks transformPoint transformQuaternion
                                 AllowedContactSpecification AllowedContact
                                 computeAllowedContact world_frame).

Lemma prepare_locks (m : Monitor AllowedContact) (specs : list AllowedContactSpecification)
    (path goal : Constraints) (ec : ErrorCode) :
  env_locks AllowedContact (snd (fst (prepare m specs path goal ec))) = S (env_locks AllowedContact m).
Proof.
  unfold prepareForValidityChecks, setPathConstraints, setGoalConstraints.
  destruct (tcf path world_frame ec) as [[ok1 c1] ec1]; simpl.
  destruct ok1; simpl; [| reflexivity].
  destruct (tcf goal world_frame ec1) as [[ok2 c2] ec2]; simpl.
  destruct ok2; reflexivity.
Qed.

(** [revertToDefaultState] after [prepareForValidityChecks] releases the environment lock taken and clears the allowed contacts and both constraint sets, whether the preparation succeeded or not. *)
Theorem prepare_then_revert (m : Monitor AllowedContact) (specs : list AllowedContactSpecification)
    (path goal : Constraints) (ec : ErrorCode) :
  revertToDefaultState AllowedContact (snd (fst (prepare m specs path goal ec)))
  = {| env_locks := env_locks AllowedContact m; allowedContacts_ := [];
       path_constraints_ := empty_constraints; goal_constraints_ := empty_constraints |}.
Proof.
  unfold revertToDefaultState, clearConstraints, clearAllowedContacts. simpl.
  rewrite prepare_locks. reflexivity.
Qed.

(** [prepareForValidityChecks] succeeds exactly when both the path and the goal constraints can be transformed to the world frame (then [SUCCESS]); if the path constraints fail, it reports [FRAME_TRANSFORM_FAILURE] and keeps the previous goal constraints. *)
Theorem prepare_result (m : Monitor AllowedContact) (specs : list AllowedContactSpecification)
    (path goal : Constraints) (ec : ErrorCode) :
  let r := prepare m specs path goal ec in
  let rp := tcf path world_frame ec in
  (fst (fst r) = true <-> fst (fst rp) = true /\ fst (fst (tcf goal world_frame (snd rp))) = true)
  /\ (fst (fst r) = true -> snd r = SUCCESS)
  /\ (fst (fst rp) = false ->
      snd r = FRAME_TRANSFORM_FAILURE
      /\ path_constraints_ AllowedContact (snd (fst r)) = snd (fst rp)
      /\ goal_constraints_ AllowedContact (snd (fst r)) = goal_constraints_ AllowedContact m).
Proof.
  intros r rp. unfold r, rp, prepareForValidityChecks, setPathConstraints, setGoalConstraints.
  destruct (transformConstraintsToFrame_facts path world_frame ec) as (_ & S1 & F1).
  destruct (tcf path world_frame ec) as [[ok1 c1] ec1]; simpl in *.
  destruct ok1; simpl.
  - destruct (transformConstraintsToFrame_facts goal world_frame ec1) as (_ & S2 & F2).
    destruct (tcf goal world_frame ec1) as [[ok2 c2] ec2]; simpl in *.
    destruct ok2; simpl.
    + split; [tauto |]. split; [intros _; apply S2; reflexivity | discriminate].
    + split; [split; [discriminate | intros [_ H]; discriminate] |].
      split; [discriminate | discriminate].
  - split; [split; [discriminate | intros [H _]; discriminate] |].
    split; [discriminate |].
    intros _. split; [apply F1; reflexivity | split; reflexivity].
Qed.

End Constraints.

(** *** Witness: the operations of a gripper link holding a cup *)

Section Witnesses.
Import ChecksExamples.

Lemma ordered_operations_disable_witness :
  let o := {| object1 := "l2"; object2 := "l1"; operation := DISABLE |} in
  In o (getOrderedCollisionOperationsForOnlyCollideLinks wx_attached wx_allowed wx_indices
          ["l2"%string] [])
  /\ operation o = DISABLE
  /\ ((object1 o = COLLISION_SET_ALL /\ object2 o = COLLISION_SET_ALL)
      \/ In o []
      \/ (In (object1 o) (all_collision_links wx_attached ["l2"%string])
          /\ exists index j, index_find wx_indices (object1 o) = Some index
                             /\ In (object2 o, j) wx_indices
                             /\ allowed_entry wx_allowed index j = true)).
Proof.
  intros o. split; [vm_compute; tauto |]. split; [reflexivity |].
  apply (ordered_operations_disable wx_attached wx_allowed wx_indices ["l2"%string] [] o);
    [vm_compute; tauto | reflexivity].
Defined.

End Witnesses.

End PlanningMonitorSetupProofs.
